(** * Linguist Corpus: the orchestration layer of [src/App.tsx]

    The React component [App] keeps a history of analysis cards in memory,
    mirrors it into [localStorage], and imports / exports it as JSON files.
    This development embeds the handlers of the component and the two
    [useEffect] hooks, and settles the properties of the specification on
    them.

    Conventions.
    - A value that went through [JSON.parse] is a [JValue]; [undefined]
      (a missing property) is [None] of [option JValue].
    - Code that may throw lives in the error monad [js].
    - A handler does not change the React state itself: it calls the
      setters, which queue an update, and performs its other effects
      (storage writes, alerts, the network call) on the spot.  A handler
      is therefore a function to a list of commands [Cmd], in program
      order; [commit] is the re-render that applies the queued updates and
      [useEffect_save] the effect that follows it. *)

From Stdlib Require Import ZArith Ascii.
From stdpp Require Import base option list strings gmap pretty.

(** ** JavaScript values and the operations the component applies to them *)

Module JS.

(** What [JSON.parse] can return.  Numbers are the integer-valued ones
    ([createdAt] is an epoch in milliseconds); the component never does
    arithmetic on a number, it only tests one for truthiness. *)
Unset Elimination Schemes.
Inductive JValue : Type :=
| JNull
| JBool (b : bool)
| JNum (n : Z)
| JStr (s : string)
| JArr (elems : list JValue)
| JObj (fields : list (string * JValue)).
Set Elimination Schemes.

(** [undefined] is the result of reading a property that is not there. *)
Abbreviation undefined := (@None JValue) (only parsing).

Inductive JSError : Type :=
| TypeError      (* property read on [null], [x.filter] on a non-array *)
| SyntaxError.   (* [JSON.parse] on malformed text *)

(** A computation that returns or throws. *)
Inductive js (A : Type) : Type :=
| Ok (a : A)
| Throw (e : JSError).
Arguments Ok {A} a.
Arguments Throw {A} e.

#[global] Instance js_ret : MRet js := fun A a => Ok a.
#[global] Instance js_bind : MBind js := fun A B f m =>
  match m with
  | Ok a => f a
  | Throw e => Throw e
  end.
Definition threw {A} (m : js A) : bool :=
  match m with Ok _ => false | Throw _ => true end.

(** First binding of a key in an object. *)
Fixpoint own_property (k : string) (fields : list (string * JValue))
  : option JValue :=
  match fields with
  | [] => None
  | (k', v) :: rest => if String.eqb k k' then Some v else own_property k rest
  end.

(** [c.k] on a [c] other than [null], for the keys the component reads
    ([term], [meaning], [id]): an object answers with its own property,
    and no array, string, number or boolean has such a key. *)
Definition field (c : JValue) (k : string) : option JValue :=
  match c with
  | JObj fields => own_property k fields
  | _ => undefined
  end.

(** [c.k]: reading a property of [null] throws. *)
Definition get_prop (c : JValue) (k : string) : js (option JValue) :=
  match c with
  | JNull => Throw TypeError
  | _ => Ok (field c k)
  end.

(** ToBoolean: the truthiness that [!x], [x && y] and [if (x)] test. *)
Definition ToBoolean (v : option JValue) : bool :=
  match v with
  | None => false
  | Some JNull => false
  | Some (JBool b) => b
  | Some (JNum n) => negb (Z.eqb n 0)
  | Some (JStr s) => negb (String.eqb s "")
  | Some (JArr _) => true
  | Some (JObj _) => true
  end.

(** SameValueZero between a value [x] of a freshly parsed file and an
    earlier value [y], as [Set.prototype.has] compares them.  Primitives
    compare by value.  Objects and arrays compare by reference, and a
    freshly parsed one is a new reference: it equals no earlier value. *)
Definition sameValueZero (x y : option JValue) : bool :=
  match x, y with
  | None, None => true
  | Some JNull, Some JNull => true
  | Some (JBool a), Some (JBool b) => Bool.eqb a b
  | Some (JNum a), Some (JNum b) => Z.eqb a b
  | Some (JStr a), Some (JStr b) => String.eqb a b
  | _, _ => false
  end.

(** [new Set(xs).has(x)] *)
Definition Set_has (xs : list (option JValue)) (x : option JValue) : bool :=
  existsb (sameValueZero x) xs.

(** [v !== s] for a string [s]: strict equality holds only between two
    strings with the same characters. *)
Definition strict_neq_string (v : option JValue) (s : string) : bool :=
  match v with
  | Some (JStr s') => negb (String.eqb s' s)
  | _ => true
  end.

(** [xs.filter(p)] for a callback that may throw: the first throw aborts
    the whole call. *)
Fixpoint filterM {A} (p : A -> js bool) (xs : list A) : js (list A) :=
  match xs with
  | [] => Ok []
  | x :: rest =>
      p x ≫= λ b : bool,
      filterM p rest ≫= λ kept,
      Ok (if b then x :: kept else kept)
  end.

(** [xs.map(f)] for a callback that may throw. *)
Fixpoint mapM_js {A B} (f : A -> js B) (xs : list A) : js (list B) :=
  match xs with
  | [] => Ok []
  | x :: rest =>
      f x ≫= λ y,
      mapM_js f rest ≫= λ ys,
      Ok (y :: ys)
  end.

(** [{...o, [k]: v}]: the key keeps its place when [o] has it already and
    goes to the end otherwise. *)
Fixpoint set_property (k : string) (v : JValue) (fields : list (string * JValue))
  : list (string * JValue) :=
  match fields with
  | [] => [(k, v)]
  | (k', v') :: rest =>
      if String.eqb k k' then (k, v) :: rest
      else (k', v') :: set_property k v rest
  end.

(** [s.includes(t)] *)
Fixpoint includes (s t : string) : bool :=
  String.prefix t s ||
  match s with
  | EmptyString => false
  | String _ s' => includes s' t
  end.

(** The number of nodes of a value. *)
Fixpoint JValue_size (v : JValue) : nat :=
  match v with
  | JArr elems => S (list_sum (map (fun x => S (JValue_size x)) elems))
  | JObj fields => S (list_sum (map (fun kv => S (JValue_size (snd kv))) fields))
  | _ => 1
  end.

(** A JavaScript object has each key once: so has every object inside a
    value that was parsed or built by the component. *)
Fixpoint distinct_keys (v : JValue) : bool :=
  match v with
  | JArr elems => forallb distinct_keys elems
  | JObj fields =>
      bool_decide (NoDup (map fst fields))
      && forallb (fun kv => distinct_keys (snd kv)) fields
  | _ => true
  end.

End JS.
Export JS.

(** ** The platform

    [JSON.parse] and [JSON.stringify] belong to the JavaScript runtime,
    not to the repository.  The component is embedded over any
    implementation of them; [RefJSON] below gives one, used to run the
    component on concrete files. *)

Class Platform : Type := {
  (** [JSON.parse(text)]; throws [SyntaxError] on malformed text *)
  JSON_parse : string -> js JValue;
  (** [JSON.stringify(v)] *)
  JSON_stringify : JValue -> string;
  (** [JSON.stringify(v, null, 2)] *)
  JSON_stringify_indent2 : JValue -> string;
}.

(** ** A reference implementation of the JSON codec *)

Module RefJSON.

Definition dquote : Ascii.ascii := "034"%char.
Definition backslash : Ascii.ascii := "092"%char.
Definition newline : string := String "010"%char "".

(** *** Printing *)

Definition hex_digit (n : nat) : Ascii.ascii :=
  match n with
  | 0 => "0" | 1 => "1" | 2 => "2" | 3 => "3" | 4 => "4" | 5 => "5"
  | 6 => "6" | 7 => "7" | 8 => "8" | 9 => "9" | 10 => "a" | 11 => "b"
  | 12 => "c" | 13 => "d" | 14 => "e" | _ => "f"
  end%char.

(** QuoteJSONString, one character at a time. *)
Definition escape_char (c : Ascii.ascii) : string :=
  let n := Ascii.nat_of_ascii c in
  if Ascii.eqb c dquote then String backslash (String dquote "")
  else if Ascii.eqb c backslash then String backslash (String backslash "")
  else if Nat.eqb n 8 then String backslash "b"
  else if Nat.eqb n 9 then String backslash "t"
  else if Nat.eqb n 10 then String backslash "n"
  else if Nat.eqb n 12 then String backslash "f"
  else if Nat.eqb n 13 then String backslash "r"
  else if Nat.ltb n 32 then
    String backslash
      (String "u" (String "0" (String "0"
         (String (hex_digit (n / 16)%nat) (String (hex_digit (n mod 16)%nat) "")))))
  else String c "".

Fixpoint escape (s : string) : string :=
  match s with
  | EmptyString => ""
  | String c rest => escape_char c +:+ escape rest
  end.

Definition quote (s : string) : string :=
  String dquote (escape s +:+ String dquote "").

Fixpoint join (sep : string) (parts : list string) : string :=
  match parts with
  | [] => ""
  | [p] => p
  | p :: rest => p +:+ sep +:+ join sep rest
  end.

Fixpoint stringify (v : JValue) : string :=
  match v with
  | JNull => "null"
  | JBool true => "true"
  | JBool false => "false"
  | JNum n => pretty n
  | JStr s => quote s
  | JArr elems => "[" +:+ join "," (map stringify elems) +:+ "]"
  | JObj fields =>
      "{" +:+ join "," (map (fun kv => quote (fst kv) +:+ ":" +:+ stringify (snd kv)) fields)
          +:+ "}"
  end.

(** [JSON.stringify(v, null, 2)]; [ind] is the indentation of the line
    the value starts on. *)
Fixpoint stringify_indent (ind : string) (v : JValue) : string :=
  let ind' := ind +:+ "  " in
  match v with
  | JArr [] => "[]"
  | JArr elems =>
      "[" +:+ newline +:+ ind'
          +:+ join ("," +:+ newline +:+ ind') (map (stringify_indent ind') elems)
          +:+ newline +:+ ind +:+ "]"
  | JObj [] => "{}"
  | JObj fields =>
      "{" +:+ newline +:+ ind'
          +:+ join ("," +:+ newline +:+ ind')
               (map (fun kv => quote (fst kv) +:+ ": " +:+ stringify_indent ind' (snd kv))
                    fields)
          +:+ newline +:+ ind +:+ "}"
  | _ => stringify v
  end.

(** *** Parsing *)

Definition is_ws (c : ascii) : bool :=
  let n := nat_of_ascii c in
  Nat.eqb n 32 || Nat.eqb n 9 || Nat.eqb n 10 || Nat.eqb n 13.

Fixpoint skip_ws (s : string) : string :=
  match s with
  | String c rest => if is_ws c then skip_ws rest else s
  | EmptyString => s
  end.

Definition digit_value (c : ascii) : option nat :=
  let n := nat_of_ascii c in
  if Nat.leb 48 n && Nat.leb n 57 then Some (n - 48)%nat else None.

Definition hex_value (c : ascii) : option nat :=
  let n := nat_of_ascii c in
  if Nat.leb 48 n && Nat.leb n 57 then Some (n - 48)%nat
  else if Nat.leb 97 n && Nat.leb n 102 then Some (n - 87)%nat
  else if Nat.leb 65 n && Nat.leb n 70 then Some (n - 55)%nat
  else None.

(** UTF-8 encoding of a code point of the basic plane; a surrogate has
    no encoding. *)
Definition utf8 (cp : N) : option string :=
  (if cp <? 128 then Some (String (ascii_of_N cp) "")
   else if cp <? 2048 then
     Some (String (ascii_of_N (192 + cp / 64))
          (String (ascii_of_N (128 + cp mod 64)) ""))
   else if (55296 <=? cp) && (cp <=? 57343) then None
   else
     Some (String (ascii_of_N (224 + cp / 4096))
          (String (ascii_of_N (128 + (cp / 64) mod 64))
          (String (ascii_of_N (128 + cp mod 64)) ""))))%N.

(** The character a one-letter escape stands for. *)
Definition simple_escape (e : ascii) : option ascii :=
  if Ascii.eqb e dquote then Some dquote
  else if Ascii.eqb e backslash then Some backslash
  else if Ascii.eqb e "/" then Some "/"%char
  else if Ascii.eqb e "b" then Some "008"%char
  else if Ascii.eqb e "f" then Some "012"%char
  else if Ascii.eqb e "n" then Some "010"%char
  else if Ascii.eqb e "r" then Some "013"%char
  else if Ascii.eqb e "t" then Some "009"%char
  else None.

(** The characters of a string literal after its opening quote, and what
    follows the closing quote. *)
Fixpoint parse_string_body (s : string) : option (string * string) :=
  match s with
  | EmptyString => None
  | String c rest =>
      if Ascii.eqb c dquote then Some ("", rest)
      else if Ascii.eqb c backslash then
        match rest with
        | String e rest1 =>
            match simple_escape e with
            | Some ch =>
                '(body, after) ← parse_string_body rest1;
                Some (String ch body, after)
            | None =>
                if Ascii.eqb e "u" then
                  match rest1 with
                  | String h1 (String h2 (String h3 (String h4 rest2))) =>
                      a ← hex_value h1; b ← hex_value h2;
                      c' ← hex_value h3; d ← hex_value h4;
                      enc ← utf8 (N.of_nat (((a * 16 + b) * 16 + c') * 16 + d));
                      '(body, after) ← parse_string_body rest2;
                      Some (enc +:+ body, after)
                  | _ => None
                  end
                else None
            end
        | EmptyString => None
        end
      else if Nat.ltb (nat_of_ascii c) 32 then None
      else
        '(body, after) ← parse_string_body rest;
        Some (String c body, after)
  end.

(** A run of decimal digits, most significant first. *)
Fixpoint parse_digits (acc : Z) (s : string) : Z * string :=
  match s with
  | String c rest =>
      match digit_value c with
      | Some d => parse_digits (acc * 10 + Z.of_nat d) rest
      | None => (acc, s)
      end
  | EmptyString => (acc, s)
  end.

Definition starts_fraction_or_exponent (s : string) : bool :=
  match s with
  | String c _ => Ascii.eqb c "." || Ascii.eqb c "e" || Ascii.eqb c "E"
  | EmptyString => false
  end.

(** An integer literal: no leading zero, and neither a fraction nor an
    exponent (such a number is not a [JNum]). *)
Definition parse_int (s : string) : option (Z * string) :=
  match s with
  | String c rest =>
      match digit_value c with
      | Some 0%nat =>
          match rest with
          | String c' _ =>
              match digit_value c' with
              | Some _ => None
              | None =>
                  if starts_fraction_or_exponent rest then None
                  else Some (0%Z, rest)
              end
          | EmptyString => Some (0%Z, rest)
          end
      | Some d =>
          let '(n, after) := parse_digits (Z.of_nat d) rest in
          if starts_fraction_or_exponent after then None else Some (n, after)
      | None => None
      end
  | EmptyString => None
  end.

Definition parse_number (s : string) : option (Z * string) :=
  match s with
  | String c rest =>
      if Ascii.eqb c "-" then
        '(n, after) ← parse_int rest; Some ((- n)%Z, after)
      else parse_int s
  | EmptyString => None
  end.

(** The object a member list denotes: a repeated key keeps its first
    place and takes its last value. *)
Definition object_of_members (members : list (string * JValue))
  : list (string * JValue) :=
  fold_left (fun fields kv => set_property (fst kv) (snd kv) fields) members [].

(** What follows [lit] at the head of [s]. *)
Fixpoint strip_prefix (lit s : string) : option string :=
  match lit with
  | EmptyString => Some s
  | String a lit' =>
      match s with
      | String b s' => if Ascii.eqb a b then strip_prefix lit' s' else None
      | EmptyString => None
      end
  end.

Definition expect (lit : string) (v : JValue) (s : string)
  : option (JValue * string) :=
  after ← strip_prefix lit s; Some (v, after).

(** Recursive descent; every call that recurses spends one unit of
    [fuel], and a text of [n] characters needs less than [n + 1]. *)
Fixpoint parse_value (fuel : nat) (s : string) : option (JValue * string) :=
  match fuel with
  | O => None
  | S fuel' =>
      match skip_ws s with
      | EmptyString => None
      | String c rest =>
          if Ascii.eqb c "n" then expect "ull" JNull rest
          else if Ascii.eqb c "t" then expect "rue" (JBool true) rest
          else if Ascii.eqb c "f" then expect "alse" (JBool false) rest
          else if Ascii.eqb c dquote then
            '(str, after) ← parse_string_body rest; Some (JStr str, after)
          else if Ascii.eqb c "[" then
            match skip_ws rest with
            | String c' rest' =>
                if Ascii.eqb c' "]" then Some (JArr [], rest')
                else '(elems, after) ← parse_elements fuel' rest;
                     Some (JArr elems, after)
            | EmptyString => None
            end
          else if Ascii.eqb c "{" then
            match skip_ws rest with
            | String c' rest' =>
                if Ascii.eqb c' "}" then Some (JObj [], rest')
                else '(members, after) ← parse_members fuel' rest;
                     Some (JObj (object_of_members members), after)
            | EmptyString => None
            end
          else '(n, after) ← parse_number (String c rest); Some (JNum n, after)
      end
  end
with parse_elements (fuel : nat) (s : string) : option (list JValue * string) :=
  match fuel with
  | O => None
  | S fuel' =>
      '(v, after) ← parse_value fuel' s;
      match skip_ws after with
      | String c rest =>
          if Ascii.eqb c "," then
            '(vs, after') ← parse_elements fuel' rest; Some (v :: vs, after')
          else if Ascii.eqb c "]" then Some ([v], rest)
          else None
      | EmptyString => None
      end
  end
with parse_members (fuel : nat) (s : string)
  : option (list (string * JValue) * string) :=
  match fuel with
  | O => None
  | S fuel' =>
      match skip_ws s with
      | String q rest =>
          if Ascii.eqb q dquote then
            '(k, after_key) ← parse_string_body rest;
            match skip_ws after_key with
            | String colon rest1 =>
                if Ascii.eqb colon ":" then
                  '(v, after) ← parse_value fuel' rest1;
                  match skip_ws after with
                  | String c rest2 =>
                      if Ascii.eqb c "," then
                        '(kvs, after') ← parse_members fuel' rest2;
                        Some ((k, v) :: kvs, after')
                      else if Ascii.eqb c "}" then Some ([(k, v)], rest2)
                      else None
                  | EmptyString => None
                  end
                else None
            | EmptyString => None
            end
          else None
      | EmptyString => None
      end
  end.

(** [JSON.parse]: one value, then nothing but white space. *)
Definition parse (text : string) : js JValue :=
  match parse_value (S (String.length text)) text with
  | Some (v, after) =>
      match skip_ws after with
      | EmptyString => Ok v
      | String _ _ => Throw SyntaxError
      end
  | None => Throw SyntaxError
  end.

(** *** Vocabulary of the round trip *)

(** A text that does not go on as a number. *)
Definition delimited (rest : string) : Prop :=
  match rest with
  | EmptyString => True
  | String c _ => digit_value c = None /\ starts_fraction_or_exponent rest = false
  end.

Fixpoint all_ws (s : string) : bool :=
  match s with
  | EmptyString => true
  | String c r => is_ws c && all_ws r
  end.

(** A character that starts a number starts nothing else. *)
Definition starts_number (c : ascii) : bool :=
  negb (is_ws c) && negb (Ascii.eqb c "n") && negb (Ascii.eqb c "t")
  && negb (Ascii.eqb c "f") && negb (Ascii.eqb c dquote)
  && negb (Ascii.eqb c "[") && negb (Ascii.eqb c "{")
  && negb (Ascii.eqb c "]") && negb (Ascii.eqb c "}").

(** What a printed value starts with: no white space and no closing
    bracket. *)
Definition opening (c : ascii) : bool :=
  negb (is_ws c) && negb (Ascii.eqb c "]") && negb (Ascii.eqb c "}").

(** The fuel that the elements of an array, or the members of an object,
    need. *)
Definition size_list (l : list JValue) : nat :=
  list_sum (map (fun x => S (JValue_size x)) l).
Definition size_members (l : list (string * JValue)) : nat :=
  list_sum (map (fun kv => S (JValue_size (snd kv))) l).

#[export] Instance platform : Platform := {|
  JSON_parse := parse;
  JSON_stringify := stringify;
  JSON_stringify_indent2 := stringify_indent "";
|}.

End RefJSON.

(** ** The component [App] *)

Definition STORAGE_KEY : string := "linguist-corpus-history".
Definition API_KEY_STORAGE_KEY : string := "linguist-gemini-api-key".

(** The texts shown to the user or logged. *)
Module Msg.
Definition no_api_key : string :=
  "APIキーが設定されていません。設定画面からGoogle Gemini APIキーを入力してください。".
Definition api_key_invalid : string :=
  "APIキーが無効か、設定されていません。設定を確認してください。".
Definition analyze_failed : string :=
  "分析に失敗しました。もう一度お試しください。".
Definition imported (n : nat) : string :=
  pretty n +:+ "件のカードを読み込みました。".
Definition nothing_imported : string :=
  "新しいカードは見つかりませんでした（重複または形式エラー）。".
Definition import_failed : string :=
  "ファイルの読み込みに失敗しました。正しいJSONファイルか確認してください。".
Definition parse_history_failed : string := "Failed to parse history".
End Msg.

(** The [useState] cells of the component.  [cards] is declared
    [CorpusCard[]]; at run time its elements are whatever was parsed or
    generated, hence [JValue]. *)
Record AppState : Type := mkAppState {
  cards : list JValue;
  loading : bool;
  error : option string;
  apiKey : string;
  isSettingsOpen : bool;
}.

(** What the component acts on outside of its own state. *)
Record Env : Type := mkEnv {
  localStorage : gmap string string;
  alerts : list string;                 (* [alert], oldest first *)
  console : list string;                (* [console.error], oldest first *)
  requests : list (string * string);    (* calls of [generateCorpusEntry] *)
  downloads : list (string * string);   (* file name and content *)
}.

(** How the promise of [generateCorpusEntry(term, apiKey)] settles.  The
    service module is not part of the component: its outcome is an input. *)
Inductive Settled : Type :=
| Resolved (entry : list (string * JValue))
| Rejected (message : option string).

(** One effect of a handler.  The setters queue a state update for the
    next render; everything else happens when the handler runs it. *)
Inductive Cmd : Type :=
| setCards (updater : list JValue -> js (list JValue))
| setCards_parsed (v : JValue)
| setLoading (b : bool)
| setError (e : option string)
| setApiKey (k : string)
| setIsSettingsOpen (b : bool)
| localStorage_setItem (k v : string)
| localStorage_removeItem (k : string)
| alert (msg : string)
| console_error (msg : string)
| call_generateCorpusEntry (term key : string)
| download (filename content : string).

Definition sets_cards (c : Cmd) : bool :=
  match c with
  | setCards _ | setCards_parsed _ => true
  | _ => false
  end.

Definition is_storage_write (k : string) (c : Cmd) : bool :=
  match c with
  | localStorage_setItem k' _ | localStorage_removeItem k' => String.eqb k k'
  | _ => false
  end.

(** [a || b] on strings that may be [null] or [undefined]. *)
Definition or_else (a b : option string) : option string :=
  match a with
  | Some (String _ _) => a
  | _ => b
  end.

(** [localStorage.getItem(API_KEY_STORAGE_KEY) || process.env.API_KEY || ''] *)
Definition initial_apiKey (storage : gmap string string)
    (env_API_KEY : option string) : string :=
  default "" (or_else (or_else (storage !! API_KEY_STORAGE_KEY) env_API_KEY)
                      (Some "")).

Definition initial_state (storage : gmap string string)
    (env_API_KEY : option string) : AppState :=
  {| cards := [];
     loading := false;
     error := None;
     apiKey := initial_apiKey storage env_API_KEY;
     isSettingsOpen := false |}.

Section Component.
Context `{Platform}.

(** *** Effects *)

(** Load history from local storage on mount. *)
Definition useEffect_load (storage : gmap string string) : list Cmd :=
  match storage !! STORAGE_KEY with
  | Some (String c rest as saved) =>
      match JSON_parse saved with
      | Ok v => [setCards_parsed v]
      | Throw _ => [console_error Msg.parse_history_failed]
      end
  | _ => []
  end.

(** Save history to local storage whenever [cards] changes. *)
Definition useEffect_save (st : AppState) : list Cmd :=
  [localStorage_setItem STORAGE_KEY (JSON_stringify (JArr (cards st)))].

(** *** Handlers *)

Definition handleSaveApiKey (key : string) : list Cmd :=
  [setApiKey key;
   match key with
   | String _ _ => localStorage_setItem API_KEY_STORAGE_KEY key
   | EmptyString => localStorage_removeItem API_KEY_STORAGE_KEY
   end].

(** [{...entry, id: crypto.randomUUID(), createdAt: Date.now()}] *)
Definition newCard (entry : list (string * JValue)) (uuid : string) (now : Z)
  : JValue :=
  JObj (set_property "createdAt" (JNum now)
          (set_property "id" (JStr uuid) entry)).

(** [handleAnalyze]; [apiKey] is the value the handler closed over.  The
    commands after the call of [generateCorpusEntry] run once its promise
    has settled. *)
Definition handleAnalyze (apiKey term : string)
    (settled : Settled) (uuid : string) (now : Z) : list Cmd :=
  match apiKey with
  | EmptyString =>
      [setIsSettingsOpen true; setError (Some Msg.no_api_key)]
  | String _ _ =>
      [setLoading true; setError None; call_generateCorpusEntry term apiKey]
      ++ match settled with
         | Resolved entry =>
             (* Prepend new card *)
             [setCards (fun prev => Ok (newCard entry uuid now :: prev))]
         | Rejected message =>
             console_error (default "" message)
             :: match message with
                | Some (String _ _ as m) =>
                    if includes m "API Key"
                    then [setError (Some Msg.api_key_invalid);
                          setIsSettingsOpen true]
                    else [setError (Some Msg.analyze_failed)]
                | _ => [setError (Some Msg.analyze_failed)]
                end
         end
      ++ [setLoading false]
  end.

(** [prev.filter(c => c.id !== id)] *)
Definition remove (id : string) (prev : list JValue) : js (list JValue) :=
  filterM (fun c => get_prop c "id" ≫= λ cid, Ok (strict_neq_string cid id)) prev.

(** [handleDelete]; [confirmed] is the answer of [window.confirm]. *)
Definition handleDelete (id : string) (confirmed : bool) : list Cmd :=
  if confirmed then [setCards (remove id)] else [].

(** [handleExport]; [isoNow] is [new Date().toISOString()]. *)
Definition handleExport (cards : list JValue) (isoNow : string) : list Cmd :=
  let dataStr := JSON_stringify_indent2 (JArr cards) in
  [download ("linguist_corpus_backup_" +:+ String.substring 0 10 isoNow +:+ ".json")
            dataStr].

(** The callback of [imported.filter]:
    [c.term && c.meaning && !existingIds.has(c.id)] *)
Definition is_new_card (existingIds : list (option JValue)) (c : JValue)
  : js bool :=
  get_prop c "term" ≫= λ term,
  if negb (ToBoolean term) then Ok false else
  get_prop c "meaning" ≫= λ meaning,
  if negb (ToBoolean meaning) then Ok false else
  get_prop c "id" ≫= λ id,
  Ok (negb (Set_has existingIds id)).

(** The body of the [try] block of [reader.onload], once the text is
    parsed; [cards] is the value the handler closed over. *)
Definition merge_imported (cards : list JValue) (imported : JValue)
  : js (list Cmd) :=
  match imported with
  | JArr items =>
      (* Merge strategy: Add only if ID doesn't exist, generic check *)
      mapM_js (fun c => get_prop c "id") cards ≫= λ existingIds,
      filterM (is_new_card existingIds) items ≫= λ newCards,
      Ok (if Nat.ltb 0 (length newCards)
          then [setCards (fun prev => Ok (newCards ++ prev));
                alert (Msg.imported (length newCards))]
          else [alert Msg.nothing_imported])
  | _ => Ok []
  end.

(** [reader.onload] *)
Definition onload (cards : list JValue) (text : string) : list Cmd :=
  match JSON_parse text ≫= merge_imported cards with
  | Ok cmds => cmds
  | Throw _ => [alert Msg.import_failed]
  end.

(** [handleImportFile]; [file] is the text of [e.target.files?.[0]]. *)
Definition handleImportFile (cards : list JValue) (file : option string)
  : list Cmd :=
  match file with
  | None => []
  | Some text => onload cards text
  end.

(** *** Running a handler *)

(** The effect a command has when the handler runs it. *)
Definition perform (env : Env) (c : Cmd) : Env :=
  match c with
  | localStorage_setItem k v =>
      mkEnv (<[k:=v]> (localStorage env)) (alerts env) (console env)
            (requests env) (downloads env)
  | localStorage_removeItem k =>
      mkEnv (delete k (localStorage env)) (alerts env) (console env)
            (requests env) (downloads env)
  | alert msg =>
      mkEnv (localStorage env) (alerts env ++ [msg]) (console env)
            (requests env) (downloads env)
  | console_error msg =>
      mkEnv (localStorage env) (alerts env) (console env ++ [msg])
            (requests env) (downloads env)
  | call_generateCorpusEntry term key =>
      mkEnv (localStorage env) (alerts env) (console env)
            (requests env ++ [(term, key)]) (downloads env)
  | download name content =>
      mkEnv (localStorage env) (alerts env) (console env)
            (requests env) (downloads env ++ [(name, content)])
  | _ => env
  end.

Definition perform_all (cmds : list Cmd) (env : Env) : Env :=
  fold_left perform cmds env.

(** The state update a command queued, applied by the next render.  An
    updater that throws ends the session with an uncaught error.  A stored
    history that parses to something else than an array would make
    [cards] a non-array, against its declared type [CorpusCard[]] (the
    render calls [cards.map]): the model does not follow the session
    there and ends it in the same way. *)
Definition apply_update (st : AppState) (c : Cmd) : js AppState :=
  match c with
  | setCards updater =>
      updater (cards st) ≫= λ cs,
      Ok (mkAppState cs (loading st) (error st) (apiKey st) (isSettingsOpen st))
  | setCards_parsed (JArr cs) =>
      Ok (mkAppState cs (loading st) (error st) (apiKey st) (isSettingsOpen st))
  | setCards_parsed _ => Throw TypeError
  | setLoading b =>
      Ok (mkAppState (cards st) b (error st) (apiKey st) (isSettingsOpen st))
  | setError e =>
      Ok (mkAppState (cards st) (loading st) e (apiKey st) (isSettingsOpen st))
  | setApiKey k =>
      Ok (mkAppState (cards st) (loading st) (error st) k (isSettingsOpen st))
  | setIsSettingsOpen b =>
      Ok (mkAppState (cards st) (loading st) (error st) (apiKey st) b)
  | _ => Ok st
  end.

Fixpoint commit (cmds : list Cmd) (st : AppState) : js AppState :=
  match cmds with
  | [] => Ok st
  | c :: rest => apply_update st c ≫= commit rest
  end.

Record Session : Type := mkSession { app : AppState; env : Env }.

(** The moment a handler has returned: its effects are done, its state
    updates are queued and the component still shows the old state. *)
Definition returned (cmds : list Cmd) (s : Session) : Session :=
  mkSession (app s) (perform_all cmds (env s)).

(** The render that follows, and the save effect when [cards] was set
    (every updater of the component builds a new array). *)
Definition rendered (cmds : list Cmd) (s : Session) : js Session :=
  commit cmds (app s) ≫= λ st,
  Ok (mkSession st
        (if existsb sets_cards cmds
         then perform_all (useEffect_save st) (env s)
         else env s)).

Definition run (cmds : list Cmd) (s : Session) : js Session :=
  rendered cmds (returned cmds s).

(** The first render and its effects, in the order of their declaration:
    the load effect reads the storage and queues its update, the save
    effect writes the still empty history, and the render that follows
    runs the save effect again when [cards] was set. *)
Definition mount (storage : gmap string string) (env_API_KEY : option string)
  : js Session :=
  let s0 := mkSession (initial_state storage env_API_KEY)
                      (mkEnv storage [] [] [] []) in
  let load := useEffect_load storage in
  rendered load (returned (load ++ useEffect_save (app s0)) s0).

(** What the user and the outside world do to the component. *)
Inductive Event : Type :=
| Analyze (term : string) (settled : Settled) (uuid : string) (now : Z)
| Delete (id : string) (confirmed : bool)
| Export (isoNow : string)
| ImportFile (file : option string)
| SaveApiKey (key : string).

(** The handler an event runs, with the values of the current render. *)
Definition handle (st : AppState) (ev : Event) : list Cmd :=
  match ev with
  | Analyze term settled uuid now => handleAnalyze (apiKey st) term settled uuid now
  | Delete id confirmed => handleDelete id confirmed
  | Export isoNow => handleExport (cards st) isoNow
  | ImportFile file => handleImportFile (cards st) file
  | SaveApiKey key => handleSaveApiKey key
  end.

Definition step (s : Session) (ev : Event) : js Session :=
  run (handle (app s) ev) s.

Fixpoint steps (s : Session) (evs : list Event) : js Session :=
  match evs with
  | [] => Ok s
  | ev :: rest => step s ev ≫= λ s', steps s' rest
  end.

End Component.

(** ** The card schema of [src/types.ts] *)

Record ParaphraseCategory : Type := {
  category : string;
  words : list string;
}.

Record CorpusEntry : Type := {
  term : string;
  meaning : string;
  paraphrases : list ParaphraseCategory;
  localization_memo : list string;
  examples : list string;
  tags : list string;
}.

Definition strings_value (xs : list string) : JValue := JArr (map JStr xs).

Definition paraphrase_value (p : ParaphraseCategory) : JValue :=
  JObj [("category", JStr (category p)); ("words", strings_value (words p))].

(** The object a well-typed [CorpusEntry] is at run time. *)
Definition entry_fields (e : CorpusEntry) : list (string * JValue) :=
  [("term", JStr (term e));
   ("meaning", JStr (meaning e));
   ("paraphrases", JArr (map paraphrase_value (paraphrases e)));
   ("localization_memo", strings_value (localization_memo e));
   ("examples", strings_value (examples e));
   ("tags", strings_value (tags e))].

(** ** Vocabulary of the statements *)

(** A value that is compared by value: anything but an object or an
    array. *)
Definition primitive (v : option JValue) : bool :=
  match v with
  | Some (JArr _) | Some (JObj _) => false
  | _ => true
  end.

(** The ids of the cards of a history, in order. *)
Definition ids (H : list JValue) : list (option JValue) :=
  map (fun c => field c "id") H.

(** The candidates an import takes, for a history [H]: truthy [term] and
    [meaning], and an [id] that [Set.has] does not find among the ids of
    [H]. *)
Definition accepts (H : list JValue) (c : JValue) : bool :=
  ToBoolean (field c "term") && ToBoolean (field c "meaning")
  && negb (Set_has (map (fun c' => field c' "id") H) (field c "id")).

(** Equality of parsed values by their content. *)
Fixpoint JValue_eqb (a b : JValue) : bool :=
  match a, b with
  | JNull, JNull => true
  | JBool x, JBool y => Bool.eqb x y
  | JNum x, JNum y => Z.eqb x y
  | JStr x, JStr y => String.eqb x y
  | JArr xs, JArr ys =>
      (fix all2 (xs ys : list JValue) : bool :=
         match xs, ys with
         | [], [] => true
         | x :: xs', y :: ys' => JValue_eqb x y && all2 xs' ys'
         | _, _ => false
         end) xs ys
  | JObj xs, JObj ys =>
      (fix all2 (xs ys : list (string * JValue)) : bool :=
         match xs, ys with
         | [], [] => true
         | (k, x) :: xs', (k', y) :: ys' =>
             String.eqb k k' && JValue_eqb x y && all2 xs' ys'
         | _, _ => false
         end) xs ys
  | _, _ => false
  end.

Definition same_id (x y : option JValue) : bool :=
  match x, y with
  | None, None => true
  | Some a, Some b => JValue_eqb a b
  | _, _ => false
  end.

(** The candidates that the specification of [mergeImport] takes: term
    and meaning are not empty, and no card of [H] has the same [id]. *)
Definition accepts_as_specified (H : list JValue) (c : JValue) : bool :=
  ToBoolean (field c "term") && ToBoolean (field c "meaning")
  && negb (existsb (same_id (field c "id")) (map (fun c' => field c' "id") H)).

(** [mergeImport] as the specification words it: the new history and the
    number of accepted candidates. *)
Definition mergeImport_as_specified (H C : list JValue) : list JValue * nat :=
  let accepted := List.filter (accepts_as_specified H) C in
  (accepted ++ H, length accepted).

(** The stored history mirrors the one in memory. *)
Definition persisted `{Platform} (s : Session) : Prop :=
  localStorage (env s) !! STORAGE_KEY
  = Some (JSON_stringify (JArr (cards (app s)))).

(** ** The two halves of [handleAnalyze]

    [handleAnalyze] is an [async] function: it runs up to the [await]
    when it is called, and the rest once the promise of
    [generateCorpusEntry] has settled.  Other handlers may run in
    between. *)

(** Up to the [await] (or to the [return] of the guard). *)
Definition handleAnalyze_start (apiKey term : string) : list Cmd :=
  match apiKey with
  | EmptyString =>
      [setIsSettingsOpen true; setError (Some Msg.no_api_key)]
  | String _ _ =>
      [setLoading true; setError None; call_generateCorpusEntry term apiKey]
  end.

(** After the [await]: the rest of the [try], the [catch] and the
    [finally]. *)
Definition handleAnalyze_settle (settled : Settled) (uuid : string) (now : Z)
  : list Cmd :=
  match settled with
  | Resolved entry =>
      [setCards (fun prev => Ok (newCard entry uuid now :: prev))]
  | Rejected message =>
      console_error (default "" message)
      :: match message with
         | Some (String _ _ as m) =>
             if includes m "API Key"
             then [setError (Some Msg.api_key_invalid);
                   setIsSettingsOpen true]
             else [setError (Some Msg.analyze_failed)]
         | _ => [setError (Some Msg.analyze_failed)]
         end
  end
  ++ [setLoading false].

(** The object a well-typed [CorpusCard] of [src/types.ts] is at run
    time: the entry, then [id] and [createdAt]. *)
Definition card_value (e : CorpusEntry) (id : string) (createdAt : Z) : JValue :=
  newCard (entry_fields e) id createdAt.

(** ** Concrete sessions, on the reference codec *)

Module Examples.
Import RefJSON.

Definition bribe : CorpusEntry :=
  {| term := "賄賂"; meaning := "わいろ";
     paraphrases := [{| category := "formal"; words := ["贈賄"; "収賄"] |}];
     localization_memo := ["文脈に注意"];
     examples := ["賄賂を受け取る"];
     tags := ["law"] |}.

Definition information : CorpusEntry :=
  {| term := "情報"; meaning := "じょうほう";
     paraphrases := []; localization_memo := []; examples := []; tags := [] |}.

Definition card_bribe : JValue := newCard (entry_fields bribe) "id-1" 1700000000000.
Definition card_information : JValue :=
  newCard (entry_fields information) "id-2" 1700000000500.

(** A minimal record that passes the shape check of the import. *)
Definition record (id : JValue) : JValue :=
  JObj [("id", id); ("term", JStr "t"); ("meaning", JStr "m")].

Definition session_of (history : list JValue) (key : string) : Session :=
  mkSession (mkAppState history false None key false)
            (mkEnv (<[STORAGE_KEY := stringify (JArr history)]> ∅) [] [] [] []).

Definition empty_session : Session := session_of [] "".

(** A backup with the same record twice. *)
Definition file_same_id_twice : string :=
  stringify (JArr [record (JStr "a"); record (JStr "a")]).

(** A backup with one good record and a [null]. *)
Definition file_with_null : string :=
  stringify (JArr [record (JStr "a"); JNull]).

(** A backup whose record has an array for [id]. *)
Definition file_array_id : string := stringify (JArr [record (JArr [])]).

(** A backup of two cards and a minimal record. *)
Definition backup : list JValue :=
  [card_information; card_bribe; record (JStr "x")].
Definition file_backup : string := stringify_indent "" (JArr backup).

(** The export of two cards, cut in the middle. *)
Definition file_truncated : string :=
  String.substring 0 100 (stringify_indent "" (JArr [card_information; card_bribe])).

End Examples.

(** * Properties *)

(** ** The error monad and the list operations *)

Section MonadFacts.

Lemma get_prop_defined (c : JValue) (k : string) :
  c ≠ JNull -> get_prop c k = Ok (field c k).
Proof. destruct c; simpl; congruence. Qed.

Lemma get_prop_null (k : string) : get_prop JNull k = Throw TypeError.
Proof. reflexivity. Qed.

(** A callback that never throws on the elements turns [filterM] into the
    filter of lists. *)
Lemma filterM_pure {A} (p : A -> js bool) (q : A -> bool) (xs : list A) :
  Forall (fun x => p x = Ok (q x)) xs ->
  filterM p xs = Ok (List.filter q xs).
Proof.
  induction 1 as [|x xs Hx _ IH]; simpl; [reflexivity|].
  rewrite Hx. simpl. rewrite IH. simpl. destruct (q x); reflexivity.
Qed.

Lemma mapM_js_pure {A B} (f : A -> js B) (g : A -> B) (xs : list A) :
  Forall (fun x => f x = Ok (g x)) xs ->
  mapM_js f xs = Ok (map g xs).
Proof.
  induction 1 as [|x xs Hx _ IH]; simpl; [reflexivity|].
  rewrite Hx. simpl. rewrite IH. reflexivity.
Qed.

(** The first throw aborts [filterM]. *)
Lemma filterM_throws {A} (p : A -> js bool) (xs : list A) (x : A) (e : JSError) :
  In x xs -> p x = Throw e -> exists e', filterM p xs = Throw e'.
Proof.
  induction xs as [|y ys IH]; simpl; [tauto|].
  intros [->|Hin] Hx.
  - rewrite Hx. eauto.
  - destruct (p y) as [b|e1]; simpl; [|eauto].
    destruct (IH Hin Hx) as [e' ->]. simpl. eauto.
Qed.

Lemma filterM_inv {A} (p : A -> js bool) (xs kept : list A) :
  filterM p xs = Ok kept ->
  exists q, Forall (fun x => p x = Ok (q x)) xs /\ kept = List.filter q xs.
Proof.
  revert kept. induction xs as [|x xs IH]; simpl; intros kept Hk.
  - exists (fun _ => true). split; [constructor|congruence].
  - destruct (p x) as [b|e] eqn:Hx; simpl in Hk; [|discriminate].
    destruct (filterM p xs) as [kept'|e] eqn:Hrest; simpl in Hk; [|discriminate].
    destruct (IH kept' eq_refl) as (q & Hq & ->).
    exists (fun y => match p y with Ok b' => b' | Throw _ => false end).
    assert (Hsame : Forall (fun y => p y = Ok (match p y with Ok b' => b' | Throw _ => false end)) xs).
    { eapply Forall_impl; [exact Hq|]. simpl. intros y Hy. rewrite Hy. reflexivity. }
    split.
    + constructor; [rewrite Hx; reflexivity | exact Hsame].
    + simpl. rewrite Hx.
      assert (Heq : List.filter q xs
                    = List.filter (fun y => match p y with Ok b' => b' | Throw _ => false end) xs).
      { clear -Hq. induction Hq as [|y ys Hy _ IHq]; simpl; [reflexivity|].
        rewrite Hy, IHq. reflexivity. }
      rewrite <- Heq. injection Hk as <-. reflexivity.
Qed.

Lemma mapM_js_inv {A B} (f : A -> js B) (xs : list A) (ys : list B) :
  mapM_js f xs = Ok ys -> Forall2 (fun x y => f x = Ok y) xs ys.
Proof.
  revert ys. induction xs as [|x xs IH]; simpl; intros ys Hy.
  - injection Hy as <-. constructor.
  - destruct (f x) as [y|e] eqn:Hx; simpl in Hy; [|discriminate].
    destruct (mapM_js f xs) as [ys'|e] eqn:Hrest; simpl in Hy; [|discriminate].
    injection Hy as <-. constructor; auto.
Qed.

End MonadFacts.

(** ** The reference codec reads back what it writes *)

Section CodecFacts.
Import RefJSON.

Lemma append_assoc (a b c : string) : (a +:+ b) +:+ c = a +:+ (b +:+ c).
Proof.
  induction a as [|x a IH]; [reflexivity|].
  change (String x ((a +:+ b) +:+ c) = String x (a +:+ (b +:+ c))).
  f_equal. exact IH.
Qed.

Lemma parse_escape_char (c : ascii) (X : string) :
  parse_string_body (escape_char c +:+ X)
  = '(body, after) ← parse_string_body X; Some (String c body, after).
Proof.
  destruct c as [[] [] [] [] [] [] [] []]; reflexivity.
Qed.

Lemma parse_quoted (s rest : string) :
  parse_string_body (escape s +:+ String dquote rest) = Some (s, rest).
Proof.
  induction s as [|c s IH]; [reflexivity|].
  cbn [escape]. rewrite append_assoc, parse_escape_char, IH. reflexivity.
Qed.

Lemma append_cons (c : ascii) (a b : string) : String c a +:+ b = String c (a +:+ b).
Proof. reflexivity. Qed.

Lemma digit_value_pretty_char (d : N) :
  (d < 10)%N -> digit_value (pretty_N_char d) = Some (N.to_nat d).
Proof.
  intros Hd.
  assert (E : (d = 0 \/ d = 1 \/ d = 2 \/ d = 3 \/ d = 4 \/ d = 5 \/ d = 6 \/
               d = 7 \/ d = 8 \/ d = 9)%N) by lia.
  repeat (destruct E as [->|E]; [reflexivity|]). subst d. reflexivity.
Qed.

Lemma parse_digits_go (x : N) :
  exists k : Z, forall (acc : Z) (s : string),
    parse_digits acc (pretty_N_go x s) = parse_digits (acc * k + Z.of_N x) s.
Proof.
  induction (N.lt_wf_0 x) as [x _ IH].
  destruct (N.eq_dec x 0%N) as [->|Hx].
  - exists 1%Z. intros acc s. rewrite pretty_N_go_0. f_equal. lia.
  - assert (Hpos : (0 < x)%N) by lia.
    destruct (IH (x `div` 10)%N) as [k Hk].
    { apply N.div_lt; lia. }
    exists (k * 10)%Z. intros acc s.
    rewrite pretty_N_go_step by exact Hpos. rewrite Hk.
    cbn [parse_digits]. rewrite digit_value_pretty_char by (apply N.mod_lt; lia).
    f_equal. rewrite N_nat_Z.
    pose proof (N.div_mod x 10%N ltac:(lia)) as Hdm.
    assert (Hz : Z.of_N x = (10 * Z.of_N (x `div` 10) + Z.of_N (x `mod` 10))%Z) by lia.
    rewrite Hz. ring.
Qed.

Lemma pretty_N_go_head (x : N) (s : string) :
  (0 < x)%N ->
  exists c r d, pretty_N_go x s = String c r /\ digit_value c = Some (S d).
Proof.
  revert s. induction (N.lt_wf_0 x) as [x _ IH]. intros s Hpos.
  rewrite pretty_N_go_step by exact Hpos.
  destruct (N.eq_dec (x `div` 10)%N 0%N) as [Hz|Hnz].
  - rewrite Hz, pretty_N_go_0.
    assert (Hlt : (x < 10)%N) by (apply N.div_small_iff in Hz; lia).
    rewrite N.mod_small by exact Hlt.
    exists (pretty_N_char x), s, (N.to_nat (x - 1)). split; [reflexivity|].
    rewrite digit_value_pretty_char by exact Hlt. f_equal. lia.
  - apply IH; [apply N.div_lt; lia | apply N.neq_0_lt_0; exact Hnz].
Qed.

Lemma pretty_N_go_append (x : N) (s t : string) :
  pretty_N_go x s +:+ t = pretty_N_go x (s +:+ t).
Proof.
  revert s. induction (N.lt_wf_0 x) as [x _ IH]. intros s.
  destruct (N.eq_dec x 0%N) as [->|Hx].
  - rewrite !pretty_N_go_0. reflexivity.
  - rewrite (pretty_N_go_step x s), (pretty_N_go_step x (s +:+ t)) by lia.
    rewrite IH by (apply N.div_lt; lia). reflexivity.
Qed.

Lemma parse_digits_stop (acc : Z) (rest : string) :
  delimited rest -> parse_digits acc rest = (acc, rest).
Proof.
  destruct rest as [|c r]; [reflexivity|]. intros [Hc _]. simpl. rewrite Hc. reflexivity.
Qed.

Lemma starts_fraction_delimited (rest : string) :
  delimited rest -> starts_fraction_or_exponent rest = false.
Proof. destruct rest; [reflexivity|]. intros [_ H]. exact H. Qed.

Lemma parse_int_positive (p : positive) (rest : string) :
  delimited rest ->
  parse_int (pretty_N_go (N.pos p) "" +:+ rest) = Some (Z.pos p, rest).
Proof.
  intros Hrest. rewrite pretty_N_go_append. change ("" +:+ rest) with rest.
  destruct (pretty_N_go_head (N.pos p) rest) as (c & r & d & Hhead & Hc); [lia|].
  destruct (parse_digits_go (N.pos p)) as [k Hk].
  specialize (Hk 0%Z rest). rewrite Hhead in Hk. rewrite Hhead.
  cbn [parse_digits] in Hk. rewrite Hc in Hk.
  unfold parse_int. rewrite Hc.
  change (0 * 10 + Z.of_nat (S d))%Z with (Z.of_nat (S d)) in Hk.
  rewrite Hk. change (0 * k + Z.of_N (N.pos p))%Z with (Z.pos p).
  rewrite parse_digits_stop by exact Hrest.
  rewrite starts_fraction_delimited by exact Hrest. reflexivity.
Qed.

Lemma pretty_positive_unfold (p : positive) :
  pretty (Z.pos p) = pretty_N_go (N.pos p) "".
Proof. reflexivity. Qed.

Lemma parse_number_pretty (n : Z) (rest : string) :
  delimited rest ->
  parse_number (pretty n +:+ rest) = Some (n, rest).
Proof.
  intros Hrest. destruct n as [|p|p].
  - change (pretty 0%Z +:+ rest) with (String "0" rest).
    unfold parse_number, parse_int. simpl.
    destruct rest as [|c r]; [reflexivity|]. destruct Hrest as [Hc Hf].
    rewrite Hc, Hf. reflexivity.
  - rewrite pretty_positive_unfold.
    pose proof (parse_int_positive p rest Hrest) as Hint.
    destruct (pretty_N_go_head (N.pos p) "" ) as (c & r & d & Hhead & Hc); [lia|].
    rewrite Hhead in *. rewrite append_cons in *.
    unfold parse_number.
    assert (Hminus : Ascii.eqb c "-" = false).
    { destruct (Ascii.eqb c "-") eqn:E; [|reflexivity].
      apply Ascii.eqb_eq in E. subst c. discriminate. }
    rewrite Hminus. exact Hint.
  - change (pretty (Z.neg p)) with ("-" +:+ pretty_N_go (N.pos p) "").
    rewrite append_assoc. change ("-" +:+ ?x) with (String "-" x).
    unfold parse_number. simpl Ascii.eqb. cbv iota.
    rewrite (parse_int_positive p rest Hrest). reflexivity.
Qed.

Lemma all_ws_app (a b : string) :
  all_ws a = true -> all_ws b = true -> all_ws (a +:+ b) = true.
Proof.
  induction a as [|c a IH]; [auto|]. rewrite append_cons. simpl.
  intros Ha Hb. apply andb_true_iff in Ha as [Hc Ha]. rewrite Hc. simpl. auto.
Qed.

Lemma skip_ws_app (ws X : string) :
  all_ws ws = true -> skip_ws (ws +:+ X) = skip_ws X.
Proof.
  induction ws as [|c ws IH]; [reflexivity|]. rewrite append_cons. simpl.
  intros Hws. apply andb_true_iff in Hws as [Hc Hws]. rewrite Hc. auto.
Qed.

Lemma parse_value_skip (fuel : nat) (s s' : string) :
  skip_ws s = skip_ws s' -> parse_value fuel s = parse_value fuel s'.
Proof. intros E. destruct fuel; [reflexivity|]. simpl. rewrite E. reflexivity. Qed.

Lemma parse_elements_skip (fuel : nat) (s s' : string) :
  skip_ws s = skip_ws s' -> parse_elements fuel s = parse_elements fuel s'.
Proof.
  intros E. destruct fuel; [reflexivity|]. simpl.
  rewrite (parse_value_skip fuel s s' E). reflexivity.
Qed.

Lemma parse_members_skip (fuel : nat) (s s' : string) :
  skip_ws s = skip_ws s' -> parse_members fuel s = parse_members fuel s'.
Proof. intros E. destruct fuel; [reflexivity|]. simpl. rewrite E. reflexivity. Qed.

Lemma digit_starts_number (c : ascii) (d : nat) :
  digit_value c = Some d -> starts_number c = true.
Proof.
  destruct c as [[] [] [] [] [] [] [] []]; try discriminate; reflexivity.
Qed.

Lemma parse_value_number_at (fuel : nat) (c : ascii) (r : string) :
  starts_number c = true ->
  parse_value (S fuel) (String c r)
  = '(n, after) ← parse_number (String c r); Some (JNum n, after).
Proof.
  unfold starts_number. intros Hc.
  repeat (apply andb_true_iff in Hc as [Hc ?]).
  repeat match goal with H : negb _ = true |- _ => apply negb_true_iff in H end.
  cbn [parse_value skip_ws].
  repeat match goal with H : _ = false |- _ => rewrite H end. reflexivity.
Qed.

Lemma pretty_head (n : Z) (rest : string) :
  exists c r, pretty n +:+ rest = String c r /\ starts_number c = true.
Proof.
  destruct n as [|p|p].
  - exists "0"%char, rest. split; reflexivity.
  - rewrite pretty_positive_unfold.
    destruct (pretty_N_go_head (N.pos p) "") as (c & r & d & Hhead & Hc); [lia|].
    rewrite Hhead. exists c, (r +:+ rest). split; [reflexivity|].
    eapply digit_starts_number, Hc.
  - exists "-"%char, (pretty_N_go (N.pos p) "" +:+ rest). split; [|reflexivity].
    change (pretty (Z.neg p)) with ("-" +:+ pretty_N_go (N.pos p) "").
    rewrite append_assoc. reflexivity.
Qed.

Lemma parse_value_number (fuel : nat) (n : Z) (rest : string) :
  delimited rest ->
  parse_value (S fuel) (pretty n +:+ rest) = Some (JNum n, rest).
Proof.
  intros Hrest. destruct (pretty_head n rest) as (c & r & Hhead & Hc).
  rewrite Hhead, (parse_value_number_at _ _ _ Hc), <- Hhead.
  rewrite (parse_number_pretty _ _ Hrest). reflexivity.
Qed.

Lemma quote_append (s rest : string) :
  quote s +:+ rest = String dquote (escape s +:+ String dquote rest).
Proof. unfold quote. rewrite append_cons, append_assoc. reflexivity. Qed.

Lemma parse_value_string (fuel : nat) (s rest : string) :
  parse_value (S fuel) (quote s +:+ rest) = Some (JStr s, rest).
Proof.
  rewrite quote_append.
  change (parse_value (S fuel) (String dquote ?X))
    with ('(str, after) ← parse_string_body X; Some (JStr str, after)).
  rewrite parse_quoted. reflexivity.
Qed.

Lemma starts_number_opening (c : ascii) : starts_number c = true -> opening c = true.
Proof.
  unfold starts_number, opening. intros Hc.
  repeat (apply andb_true_iff in Hc as [Hc ?]).
  repeat (apply andb_true_iff; split); assumption.
Qed.

Lemma print_head (v : JValue) (ind rest : string) :
  exists c r, stringify_indent ind v +:+ rest = String c r /\ opening c = true.
Proof.
  destruct v as [|b|n|s|elems|fields].
  - exists "n"%char, ("ull" +:+ rest). split; reflexivity.
  - destruct b.
    + exists "t"%char, ("rue" +:+ rest). split; reflexivity.
    + exists "f"%char, ("alse" +:+ rest). split; reflexivity.
  - destruct (pretty_head n rest) as (c & r & Hhead & Hc).
    exists c, r. split; [exact Hhead|]. apply starts_number_opening, Hc.
  - exists dquote, (escape s +:+ String dquote rest). split; [|reflexivity].
    apply quote_append.
  - destruct elems as [|x l].
    + exists "["%char, ("]" +:+ rest). split; reflexivity.
    + eexists "["%char, _. split; [|reflexivity].
      cbn [stringify_indent]. rewrite append_cons. reflexivity.
  - destruct fields as [|x l].
    + exists "{"%char, ("}" +:+ rest). split; reflexivity.
    + eexists "{"%char, _. split; [|reflexivity].
      cbn [stringify_indent]. rewrite append_cons. reflexivity.
Qed.

Lemma skip_ws_opening (c : ascii) (r : string) :
  opening c = true -> skip_ws (String c r) = String c r.
Proof.
  unfold opening. intros Hc. repeat (apply andb_true_iff in Hc as [Hc ?]).
  apply negb_true_iff in Hc. simpl. rewrite Hc. reflexivity.
Qed.

Lemma delimited_comma (X : string) : delimited ("," +:+ X).
Proof. split; reflexivity. Qed.

Lemma delimited_newline (X : string) : delimited (newline +:+ X).
Proof. split; reflexivity. Qed.

Lemma all_ws_newline : all_ws newline = true.
Proof. reflexivity. Qed.

Lemma join_one (sep p : string) : join sep [p] = p.
Proof. reflexivity. Qed.

Lemma join_more (sep p q : string) (ps : list string) :
  join sep (p :: q :: ps) = p +:+ sep +:+ join sep (q :: ps).
Proof. reflexivity. Qed.

(** One step of each loop of the parser. *)

Lemma parse_elements_more (f : nat) (s X : string) (v : JValue) :
  parse_value f s = Some (v, "," +:+ X) ->
  parse_elements (S f) s = '(vs, after) ← parse_elements f X; Some (v :: vs, after).
Proof. intros E. simpl. rewrite E. reflexivity. Qed.

Lemma parse_elements_last (f : nat) (s ws X : string) (v : JValue) :
  parse_value f s = Some (v, ws +:+ String "]" X) -> all_ws ws = true ->
  parse_elements (S f) s = Some ([v], X).
Proof.
  intros E Hws. simpl. rewrite E. cbn [mbind option_bind].
  rewrite (skip_ws_app _ _ Hws). reflexivity.
Qed.

Lemma parse_value_array (f : nat) (R r rest : string) (c : ascii) (elems : list JValue) :
  skip_ws R = String c r -> opening c = true ->
  parse_elements f R = Some (elems, rest) ->
  parse_value (S f) (String "[" R) = Some (JArr elems, rest).
Proof.
  intros Hskip Hc Helems. unfold opening in Hc.
  repeat (apply andb_true_iff in Hc as [Hc ?]).
  repeat match goal with H : negb _ = true |- _ => apply negb_true_iff in H end.
  change (parse_value (S f) (String "[" R))
    with (match skip_ws R with
          | String c' rest' =>
              if Ascii.eqb c' "]" then Some (JArr [], rest')
              else '(elems, after) ← parse_elements f R; Some (JArr elems, after)
          | EmptyString => None
          end).
  rewrite Hskip.
  repeat match goal with H : _ = false |- _ => rewrite H end.
  rewrite Helems. reflexivity.
Qed.

Lemma parse_members_more (f : nat) (k T X : string) (v : JValue) :
  parse_value f T = Some (v, "," +:+ X) ->
  parse_members (S f) (String dquote (escape k +:+ String dquote (String ":" T)))
  = '(kvs, after) ← parse_members f X; Some ((k, v) :: kvs, after).
Proof.
  intros E.
  change (parse_members (S f) (String dquote ?B))
    with ('(k, after_key) ← parse_string_body B;
          match skip_ws after_key with
          | String colon rest1 =>
              if Ascii.eqb colon ":" then
                '(v, after) ← parse_value f rest1;
                match skip_ws after with
                | String c rest2 =>
                    if Ascii.eqb c "," then
                      '(kvs, after') ← parse_members f rest2;
                      Some ((k, v) :: kvs, after')
                    else if Ascii.eqb c "}" then Some ([(k, v)], rest2)
                    else None
                | EmptyString => None
                end
              else None
          | EmptyString => None
          end).
  rewrite parse_quoted. cbn [mbind option_bind]. cbn [skip_ws]. 
  change (is_ws ":") with false. cbv iota. change (Ascii.eqb ":" ":") with true. cbv iota.
  rewrite E. reflexivity.
Qed.

Lemma parse_members_last (f : nat) (k T ws X : string) (v : JValue) :
  parse_value f T = Some (v, ws +:+ String "}" X) -> all_ws ws = true ->
  parse_members (S f) (String dquote (escape k +:+ String dquote (String ":" T)))
  = Some ([(k, v)], X).
Proof.
  intros E Hws.
  change (parse_members (S f) (String dquote ?B))
    with ('(k, after_key) ← parse_string_body B;
          match skip_ws after_key with
          | String colon rest1 =>
              if Ascii.eqb colon ":" then
                '(v, after) ← parse_value f rest1;
                match skip_ws after with
                | String c rest2 =>
                    if Ascii.eqb c "," then
                      '(kvs, after') ← parse_members f rest2;
                      Some ((k, v) :: kvs, after')
                    else if Ascii.eqb c "}" then Some ([(k, v)], rest2)
                    else None
                | EmptyString => None
                end
              else None
          | EmptyString => None
          end).
  rewrite parse_quoted. cbn [mbind option_bind]. cbn [skip_ws].
  change (is_ws ":") with false. cbv iota. change (Ascii.eqb ":" ":") with true. cbv iota.
  rewrite E. cbn [mbind option_bind]. rewrite (skip_ws_app _ _ Hws). reflexivity.
Qed.

Lemma parse_value_object (f : nat) (R r rest : string) (c : ascii)
    (members : list (string * JValue)) :
  skip_ws R = String c r -> opening c = true ->
  parse_members f R = Some (members, rest) ->
  parse_value (S f) (String "{" R) = Some (JObj (object_of_members members), rest).
Proof.
  intros Hskip Hc Hm. unfold opening in Hc.
  repeat (apply andb_true_iff in Hc as [Hc ?]).
  repeat match goal with H : negb _ = true |- _ => apply negb_true_iff in H end.
  change (parse_value (S f) (String "{" R))
    with (match skip_ws R with
          | String c' rest' =>
              if Ascii.eqb c' "}" then Some (JObj [], rest')
              else '(members, after) ← parse_members f R;
                   Some (JObj (object_of_members members), after)
          | EmptyString => None
          end).
  rewrite Hskip.
  repeat match goal with H : _ = false |- _ => rewrite H end.
  rewrite Hm. reflexivity.
Qed.

Section Loops.
Variable fuel : nat.
Hypothesis IH : forall f, f < fuel ->
  forall v ind rest, JValue_size v <= f -> distinct_keys v = true -> all_ws ind = true -> delimited rest ->
  parse_value f (stringify_indent ind v +:+ rest) = Some (v, rest).

Lemma roundtrip_elements (l : list JValue) :
  forall x f ind ind' ws rest,
    f < fuel -> size_list (x :: l) <= f -> forallb distinct_keys (x :: l) = true ->
    all_ws ind = true -> all_ws ind' = true -> all_ws ws = true ->
    parse_elements f
      (ws +:+ join ("," +:+ newline +:+ ind') (map (stringify_indent ind') (x :: l))
          +:+ newline +:+ ind +:+ String "]" rest)
    = Some (x :: l, rest).
Proof.
  induction l as [|y l IHl]; intros x f ind ind' ws rest Hf Hsize Hwf Hind Hind' Hws;
    (destruct f as [|f]; [unfold size_list in Hsize; simpl in Hsize; lia|]);
    rewrite (parse_elements_skip _ _ _ (skip_ws_app ws _ Hws));
    assert (Hx : JValue_size x <= f) by (unfold size_list in Hsize; simpl in Hsize; lia);
    assert (Hwx : distinct_keys x = true) by (simpl in Hwf; apply andb_true_iff in Hwf; tauto).
  - cbn [map]. rewrite join_one.
    apply (parse_elements_last f _ (newline +:+ ind)).
    + rewrite append_assoc. apply IH; auto using delimited_newline. lia.
    + apply all_ws_app; [reflexivity|exact Hind].
  - cbn [map]. rewrite join_more. rewrite !append_assoc.
    erewrite (parse_elements_more f _ _ x).
    2:{ apply IH; auto using delimited_comma. lia. }
    rewrite <- (append_assoc newline ind').
    change (map (stringify_indent ind') l) with (map (stringify_indent ind') l).
    pose proof (IHl y f ind ind' (newline +:+ ind') rest) as IHy.
    cbn [map] in IHy. rewrite IHy; [reflexivity| lia | | | assumption | assumption | ].
    + unfold size_list in *. simpl in *. lia.
    + simpl in Hwf. apply andb_true_iff in Hwf. tauto.
    + apply all_ws_app; [reflexivity|exact Hind'].
Qed.

Lemma member_text (k : string) (X : string) :
  quote k +:+ ": " +:+ X
  = String dquote (escape k +:+ String dquote (String ":" (" " +:+ X))).
Proof. rewrite quote_append. reflexivity. Qed.

Lemma roundtrip_members (l : list (string * JValue)) :
  forall kv f ind ind' ws rest,
    f < fuel -> size_members (kv :: l) <= f ->
    forallb (fun kv => distinct_keys (snd kv)) (kv :: l) = true ->
    all_ws ind = true -> all_ws ind' = true -> all_ws ws = true ->
    parse_members f
      (ws +:+ join ("," +:+ newline +:+ ind')
                (map (fun kv => quote (fst kv) +:+ ": " +:+ stringify_indent ind' (snd kv))
                     (kv :: l))
          +:+ newline +:+ ind +:+ String "}" rest)
    = Some (kv :: l, rest).
Proof.
  induction l as [|y l IHl]; intros [k x] f ind ind' ws rest Hf Hsize Hwf Hind Hind' Hws;
    (destruct f as [|f]; [unfold size_members in Hsize; simpl in Hsize; lia|]);
    rewrite (parse_members_skip _ _ _ (skip_ws_app ws _ Hws));
    assert (Hx : JValue_size x <= f) by (unfold size_members in Hsize; simpl in Hsize; lia);
    assert (Hwx : distinct_keys x = true) by (simpl in Hwf; apply andb_true_iff in Hwf; tauto).
  - cbn [map fst snd]. rewrite join_one. rewrite !append_assoc, member_text.
    apply (parse_members_last f k _ (newline +:+ ind)).
    + rewrite (parse_value_skip _ _ _ (skip_ws_app " " _ eq_refl)).
      rewrite <- (append_assoc newline ind).
      apply IH; auto. lia.
      rewrite append_assoc. apply delimited_newline.
    + apply all_ws_app; [reflexivity|exact Hind].
  - cbn [map fst snd]. rewrite join_more. rewrite !append_assoc, member_text.
    erewrite (parse_members_more f k _ _ x).
    2:{ rewrite (parse_value_skip _ _ _ (skip_ws_app " " _ eq_refl)).
        apply IH; auto using delimited_comma. lia. }
    rewrite <- (append_assoc newline ind').
    pose proof (IHl y f ind ind' (newline +:+ ind') rest) as IHy.
    cbn [map] in IHy. rewrite IHy; [reflexivity| lia | | | assumption | assumption | ].
    + unfold size_members in *. simpl in *. lia.
    + simpl in Hwf. apply andb_true_iff in Hwf. tauto.
    + apply all_ws_app; [reflexivity|exact Hind'].
Qed.

End Loops.

Lemma set_property_fresh (k : string) (v : JValue) (fields : list (string * JValue)) :
  k ∉ map fst fields -> set_property k v fields = fields ++ [(k, v)].
Proof.
  induction fields as [|[k' v'] rest IHf]; [reflexivity|]. simpl. intros Hk.
  apply not_elem_of_cons in Hk as [Hne Hk].
  apply String.eqb_neq in Hne. rewrite Hne. rewrite IHf by exact Hk. reflexivity.
Qed.

Lemma object_of_members_acc (members acc : list (string * JValue)) :
  NoDup (map fst (acc ++ members)) ->
  fold_left (fun fields kv => set_property (fst kv) (snd kv) fields) members acc
  = acc ++ members.
Proof.
  revert acc. induction members as [|[k v] rest IHm]; intros acc Hnd.
  - rewrite app_nil_r. reflexivity.
  - cbn [fold_left fst snd].
    rewrite set_property_fresh.
    + rewrite IHm; rewrite <- app_assoc; [reflexivity|exact Hnd].
    + rewrite map_app in Hnd. apply NoDup_app in Hnd as (_ & Hdisj & _).
      intros Hin. apply (Hdisj k Hin). simpl. left.
Qed.

Lemma object_of_members_distinct (members : list (string * JValue)) :
  NoDup (map fst members) -> object_of_members members = members.
Proof. intros Hnd. apply (object_of_members_acc members []). exact Hnd. Qed.

Lemma stringify_indent_array (ind : string) (x : JValue) (l : list JValue) :
  stringify_indent ind (JArr (x :: l))
  = String "[" ((newline +:+ (ind +:+ "  "))
      +:+ join ("," +:+ newline +:+ (ind +:+ "  "))
            (map (stringify_indent (ind +:+ "  ")) (x :: l))
      +:+ newline +:+ ind +:+ "]").
Proof. rewrite (append_assoc newline (ind +:+ "  ")). reflexivity. Qed.

Lemma stringify_indent_object (ind : string) (kv : string * JValue)
    (l : list (string * JValue)) :
  stringify_indent ind (JObj (kv :: l))
  = String "{" ((newline +:+ (ind +:+ "  "))
      +:+ join ("," +:+ newline +:+ (ind +:+ "  "))
            (map (fun kv => quote (fst kv) +:+ ": "
                            +:+ stringify_indent (ind +:+ "  ") (snd kv)) (kv :: l))
      +:+ newline +:+ ind +:+ "}").
Proof. rewrite (append_assoc newline (ind +:+ "  ")). reflexivity. Qed.

Lemma close_text (W J I close rest : string) :
  (W +:+ J +:+ newline +:+ I +:+ close) +:+ rest
  = W +:+ J +:+ newline +:+ I +:+ (close +:+ rest).
Proof. rewrite !append_assoc. reflexivity. Qed.

Lemma elements_head (sep ind tail : string) (x : JValue) (l : list JValue) :
  exists c r,
    join sep (map (stringify_indent ind) (x :: l)) +:+ tail = String c r /\
    opening c = true.
Proof.
  destruct l as [|y l]; cbn [map].
  - rewrite join_one. apply print_head.
  - rewrite join_more, append_assoc. apply print_head.
Qed.

Lemma members_head (sep ind tail : string) (kv : string * JValue)
    (l : list (string * JValue)) :
  exists c r,
    join sep (map (fun kv => quote (fst kv) +:+ ": " +:+ stringify_indent ind (snd kv))
                  (kv :: l)) +:+ tail = String c r /\
    opening c = true.
Proof.
  destruct l as [|y l]; cbn [map].
  - rewrite join_one, !append_assoc, quote_append. eexists _, _. split; reflexivity.
  - rewrite join_more, !append_assoc, quote_append. eexists _, _. split; reflexivity.
Qed.

Lemma roundtrip_value (fuel : nat) :
  forall v ind rest,
    JValue_size v <= fuel -> distinct_keys v = true -> all_ws ind = true -> delimited rest ->
    parse_value fuel (stringify_indent ind v +:+ rest) = Some (v, rest).
Proof.
  induction fuel as [fuel IH] using lt_wf_ind.
  intros v ind rest Hsize Hwf Hind Hrest.
  destruct fuel as [|f]; [destruct v; simpl in Hsize; lia|].
  assert (Hind' : all_ws (ind +:+ "  ") = true).
  { apply all_ws_app; [exact Hind|reflexivity]. }
  assert (Hws : all_ws (newline +:+ ind +:+ "  ") = true).
  { apply all_ws_app; [reflexivity|exact Hind']. }
  destruct v as [|b|n|s|elems|fields].
  - reflexivity.
  - destruct b; reflexivity.
  - apply parse_value_number, Hrest.
  - apply parse_value_string.
  - destruct elems as [|x l]; [reflexivity|].
    rewrite stringify_indent_array, append_cons, close_text.
    destruct (elements_head ("," +:+ newline +:+ ind +:+ "  ") (ind +:+ "  ")
                (newline +:+ ind +:+ "]" +:+ rest) x l) as (c & r & Hhead & Hc).
    eapply parse_value_array.
    + rewrite (skip_ws_app _ _ Hws), Hhead. apply skip_ws_opening, Hc.
    + exact Hc.
    + apply (roundtrip_elements (S f) IH); auto.
      simpl in Hsize. unfold size_list. simpl. lia.
  - destruct fields as [|kv l]; [reflexivity|].
    rewrite stringify_indent_object, append_cons, close_text.
    destruct (members_head ("," +:+ newline +:+ ind +:+ "  ") (ind +:+ "  ")
                (newline +:+ ind +:+ "}" +:+ rest) kv l) as (c & r & Hhead & Hc).
    simpl in Hwf. apply andb_true_iff in Hwf as [Hkeys Hwf].
    apply bool_decide_eq_true in Hkeys.
    rewrite <- (object_of_members_distinct (kv :: l) Hkeys) at 2.
    eapply parse_value_object.
    + rewrite (skip_ws_app _ _ Hws), Hhead. apply skip_ws_opening, Hc.
    + exact Hc.
    + apply (roundtrip_members (S f) IH); auto.
      simpl in Hsize. unfold size_members. simpl. lia.
Qed.

Lemma length_append (a b : string) :
  String.length (a +:+ b) = String.length a + String.length b.
Proof.
  induction a as [|c a IHa]; [reflexivity|].
  rewrite append_cons. simpl. rewrite IHa. reflexivity.
Qed.

Lemma append_empty (a : string) : a +:+ "" = a.
Proof.
  induction a as [|c a IHa]; [reflexivity|]. rewrite append_cons, IHa. reflexivity.
Qed.

Lemma join_size {A} (f : A -> nat) (p : A -> string) (sep : string)
    (l : list A) (x : A) :
  (forall y, In y (x :: l) -> f y <= String.length (p y)) ->
  1 <= String.length sep ->
  list_sum (map (fun y => S (f y)) (x :: l))
  <= S (String.length (join sep (map p (x :: l)))).
Proof.
  intros Hp Hsep. revert x Hp. induction l as [|y l IHl]; intros x Hp.
  - cbn [map]. rewrite join_one. simpl. specialize (Hp x (or_introl eq_refl)). lia.
  - cbn [map]. rewrite join_more, !length_append.
    specialize (IHl y (fun z Hz => Hp z (or_intror Hz))).
    cbn [map] in IHl. pose proof (Hp x (or_introl eq_refl)).
    cbn [list_sum fold_right] in *. lia.
Qed.

Lemma size_le_length (n : nat) :
  forall v ind, JValue_size v <= n -> JValue_size v <= String.length (stringify_indent ind v).
Proof.
  induction n as [|n IHn]; intros v ind Hn; [destruct v; simpl in Hn; lia|].
  destruct v as [|b|m|s|elems|fields].
  - simpl. lia.
  - destruct b; simpl; lia.
  - destruct (pretty_head m "") as (c & r & Hhead & _).
    rewrite append_empty in Hhead.
    change (stringify_indent ind (JNum m)) with (pretty m). rewrite Hhead. simpl. lia.
  - simpl. lia.
  - destruct elems as [|x l]; [simpl; lia|].
    rewrite stringify_indent_array.
    cbn [String.length JValue_size]. rewrite !length_append.
    pose proof (join_size JValue_size (stringify_indent (ind +:+ "  "))
                  ("," +:+ newline +:+ ind +:+ "  ") l x) as Hj.
    cbn [JValue_size] in Hn. 
    assert (Hall : forall y, In y (x :: l) ->
                    JValue_size y <= String.length (stringify_indent (ind +:+ "  ") y)).
    { intros y Hy. apply IHn.
      assert (S (JValue_size y) <= list_sum (map (fun x => S (JValue_size x)) (x :: l))).
      { clear -Hy. induction (x :: l) as [|z zs IHz]; [destruct Hy|].
        simpl. destruct Hy as [->|Hy]; [lia|]. specialize (IHz Hy). lia. }
      lia. }
    specialize (Hj Hall ltac:(rewrite length_append; simpl; lia)).
    change (String.length newline) with 1. change (String.length "]") with 1.
    change (String.length "}") with 1. cbn [list_sum fold_right] in *. lia.
  - destruct fields as [|kv l]; [simpl; lia|].
    rewrite stringify_indent_object.
    cbn [String.length JValue_size]. rewrite !length_append.
    pose proof (join_size (fun kv => JValue_size (snd kv))
                  (fun kv => quote (fst kv) +:+ ": "
                             +:+ stringify_indent (ind +:+ "  ") (snd kv))
                  ("," +:+ newline +:+ ind +:+ "  ") l kv) as Hj.
    cbn [JValue_size] in Hn.
    assert (Hall : forall y, In y (kv :: l) ->
                    JValue_size (snd y)
                    <= String.length (quote (fst y) +:+ ": "
                                      +:+ stringify_indent (ind +:+ "  ") (snd y))).
    { intros y Hy. rewrite !length_append.
      assert (JValue_size (snd y) <= String.length (stringify_indent (ind +:+ "  ") (snd y))).
      { apply IHn.
        assert (S (JValue_size (snd y)) <= list_sum (map (fun kv => S (JValue_size (snd kv))) (kv :: l))).
        { clear -Hy. induction (kv :: l) as [|z zs IHz]; [destruct Hy|].
          simpl. destruct Hy as [->|Hy]; [lia|]. specialize (IHz Hy). lia. }
        lia. }
      lia. }
    specialize (Hj Hall ltac:(rewrite length_append; simpl; lia)).
    change (String.length newline) with 1. change (String.length "]") with 1.
    change (String.length "}") with 1. cbn [list_sum fold_right] in *. lia.
Qed.

(** The reference parser reads back what the reference printer writes. *)
Theorem parse_stringify_indent (v : JValue) :
  distinct_keys v = true -> parse (stringify_indent "" v) = Ok v.
Proof.
  intros Hwf. unfold parse.
  rewrite <- (append_empty (stringify_indent "" v)) at 2.
  rewrite roundtrip_value; [reflexivity| |exact Hwf|reflexivity|exact I].
  pose proof (size_le_length (JValue_size v) v "" (Nat.le_refl _)). lia.
Qed.

End CodecFacts.

(** ** The handlers *)

Section Properties.
Context `{Platform}.

Lemma strict_neq_string_spec (v : option JValue) (id : string) :
  strict_neq_string v id = true <-> v <> Some (JStr id).
Proof.
  destruct v as [[| | |s| |]|]; simpl; try (split; [intros _; discriminate|reflexivity]).
  rewrite negb_true_iff. split.
  - intros Hne Heq. injection Heq as ->. rewrite String.eqb_refl in Hne. discriminate.
  - intros Hne. apply String.eqb_neq. congruence.
Qed.

(** [remove] on a history without [null] is the filter on the [id]. *)
Lemma remove_filter (id : string) (prev : list JValue) :
  Forall (fun c => c <> JNull) prev ->
  remove id prev
  = Ok (List.filter (fun c => strict_neq_string (field c "id") id) prev).
Proof.
  intros Hnn. unfold remove. apply filterM_pure.
  eapply Forall_impl; [exact Hnn|]. simpl. intros c Hc.
  rewrite get_prop_defined by exact Hc. reflexivity.
Qed.

(** A batch without [setCards] leaves the history as it is. *)
Lemma commit_keeps_cards (cmds : list Cmd) (st st' : AppState) :
  existsb sets_cards cmds = false ->
  commit cmds st = Ok st' -> cards st' = cards st.
Proof.
  revert st. induction cmds as [|c cmds IH]; simpl; intros st Hno Hc.
  - congruence.
  - apply orb_false_iff in Hno as [Hc0 Hrest].
    destruct c; simpl in Hc0; try discriminate; simpl in Hc;
      apply (IH _ Hrest) in Hc; exact Hc.
Qed.

(** Commands that do not write under a key leave its value as it is. *)
Lemma perform_all_other_key (k : string) (cmds : list Cmd) (env : Env) :
  existsb (is_storage_write k) cmds = false ->
  localStorage (perform_all cmds env) !! k = localStorage env !! k.
Proof.
  unfold perform_all. revert env.
  induction cmds as [|c cmds IH]; simpl; intros env Hno; [reflexivity|].
  apply orb_false_iff in Hno as [Hc Hrest].
  rewrite (IH _ Hrest).
  destruct c; simpl in *; try reflexivity.
  - apply String.eqb_neq in Hc. apply lookup_insert_ne. congruence.
  - apply String.eqb_neq in Hc. apply lookup_delete_ne. congruence.
Qed.

(** C9: for every History without a [null] element and every id, the
    confirmed delete succeeds and leaves exactly the cards whose [id] is
    not that string, in their original order ([List.filter] keeps the
    order); it changes nothing when no card has the id. *)
Theorem delete_removes_matching_card (s : Session) (id : string) :
  Forall (fun c => c <> JNull) (cards (app s)) ->
  exists s',
    step s (Delete id true) = Ok s' /\
    cards (app s')
    = List.filter (fun c => strict_neq_string (field c "id") id) (cards (app s)) /\
    (forall c, In c (cards (app s')) <->
               In c (cards (app s)) /\ field c "id" <> Some (JStr id)) /\
    ((forall c, In c (cards (app s)) -> field c "id" <> Some (JStr id)) ->
     cards (app s') = cards (app s)).
Proof.
  intros Hnn. unfold step, run, rendered. simpl.
  rewrite (remove_filter id _ Hnn). simpl.
  eexists. split; [reflexivity|]. simpl. split; [reflexivity|]. split.
  - intros c. rewrite filter_In, strict_neq_string_spec. reflexivity.
  - intros Hnone. clear Hnn. induction (cards (app s)) as [|c cs IH]; simpl; [reflexivity|].
    assert (Hc : strict_neq_string (field c "id") id = true).
    { apply strict_neq_string_spec, Hnone. left. reflexivity. }
    rewrite Hc. f_equal. apply IH. intros c' Hin. apply Hnone. right. exact Hin.
Qed.

(** C7: when the credential is empty, or has just been removed through
    the settings, analyze reports the missing credential, issues no
    request and leaves the History as it is, whatever the term. *)
Theorem analyze_without_credential
    (s : Session) (term : string) (settled : Settled) (uuid : string) (now : Z) :
  (apiKey (app s) = "" \/ exists s0, step s0 (SaveApiKey "") = Ok s) ->
  exists s',
    step s (Analyze term settled uuid now) = Ok s' /\
    error (app s') = Some Msg.no_api_key /\
    isSettingsOpen (app s') = true /\
    requests (env s') = requests (env s) /\
    cards (app s') = cards (app s) /\
    localStorage (env s') = localStorage (env s).
Proof.
  intros Hcred.
  assert (Hempty : apiKey (app s) = "").
  { destruct Hcred as [Hk|[s0 Hs0]]; [exact Hk|].
    unfold step, run, rendered in Hs0. simpl in Hs0. injection Hs0 as <-. reflexivity. }
  unfold step, run, rendered. simpl. rewrite Hempty. simpl.
  eexists. split; [reflexivity|]. simpl. repeat split; reflexivity.
Qed.

(** C10: with nothing stored under the credential key, the session starts
    with the credential of the environment variable, or the empty string
    when the variable is not set; with a non-empty one, an analyze whose
    request resolves prepends its card although no credential was ever
    saved. *)
Theorem credential_falls_back_to_environment
    (storage : gmap string string) (env_API_KEY : option string) :
  storage !! API_KEY_STORAGE_KEY = None ->
  apiKey (initial_state storage env_API_KEY) = default "" env_API_KEY /\
  forall s, mount storage env_API_KEY = Ok s ->
    apiKey (app s) = default "" env_API_KEY /\
    forall term entry uuid now,
      default "" env_API_KEY <> "" ->
      exists s',
        step s (Analyze term (Resolved entry) uuid now) = Ok s' /\
        cards (app s') = newCard entry uuid now :: cards (app s) /\
        requests (env s') = requests (env s) ++ [(term, default "" env_API_KEY)].
Proof.
  intros Hnone.
  assert (Hinit : apiKey (initial_state storage env_API_KEY) = default "" env_API_KEY).
  { simpl. unfold initial_apiKey. rewrite Hnone. simpl.
    destruct env_API_KEY as [[|c k]|]; reflexivity. }
  split; [exact Hinit|].
  intros s Hmount.
  assert (Hkey : apiKey (app s) = default "" env_API_KEY).
  { rewrite <- Hinit. unfold mount, rendered in Hmount. simpl in Hmount.
    unfold useEffect_load in Hmount.
    destruct (storage !! STORAGE_KEY) as [[|c saved]|]; simpl in Hmount;
      try (injection Hmount as <-; reflexivity).
    destruct (JSON_parse (String c saved)) as [v|e]; simpl in Hmount.
    - destruct v; simpl in Hmount; try discriminate.
      injection Hmount as <-. reflexivity.
    - injection Hmount as <-. reflexivity. }
  split; [exact Hkey|].
  intros term entry uuid now Hne.
  unfold step, run, rendered. simpl. rewrite Hkey.
  destruct (default "" env_API_KEY) as [|c k] eqn:Hk; [congruence|].
  simpl. eexists. split; [reflexivity|]. simpl. split; reflexivity.
Qed.

(** C8, as the code has it: a stored history that does not parse leaves
    the mounted component with an empty History and no uncaught error;
    the condition is logged, except for the empty string, which the guard
    [if (saved)] takes for no stored history at all. *)
Theorem load_malformed_history
    (storage : gmap string string) (env_API_KEY : option string)
    (saved : string) (e : JSError) :
  storage !! STORAGE_KEY = Some saved ->
  JSON_parse saved = Throw e ->
  exists s,
    mount storage env_API_KEY = Ok s /\
    cards (app s) = [] /\
    console (env s) = match saved with
                      | EmptyString => []
                      | String _ _ => [Msg.parse_history_failed]
                      end.
Proof.
  intros Hsaved Hparse. unfold mount, rendered, useEffect_load.
  rewrite Hsaved. destruct saved as [|c rest].
  - simpl. eexists. split; [reflexivity|]. split; reflexivity.
  - rewrite Hparse. simpl. eexists. split; [reflexivity|]. split; reflexivity.
Qed.

(** What [onload] does with a text that is no JSON sequence. *)
Lemma onload_not_sequence (history : list JValue) (text : string) :
  (forall items, JSON_parse text <> Ok (JArr items)) ->
  onload history text
  = if threw (JSON_parse text) then [alert Msg.import_failed] else [].
Proof.
  intros Hns. unfold onload.
  destruct (JSON_parse text) as [v|e]; simpl; [|reflexivity].
  destruct v; simpl; try reflexivity. exfalso. eapply Hns. reflexivity.
Qed.

(** C3, as the code has it: a file that is no JSON sequence never changes
    the History nor the storage.  When it does not parse, the failure is
    reported; when it parses to something else than a sequence, nothing
    is reported. *)
Theorem import_not_a_sequence (s : Session) (text : string) :
  (forall items, JSON_parse text <> Ok (JArr items)) ->
  exists s',
    step s (ImportFile (Some text)) = Ok s' /\
    app s' = app s /\
    localStorage (env s') = localStorage (env s) /\
    alerts (env s')
    = alerts (env s)
      ++ (if threw (JSON_parse text) then [Msg.import_failed] else []).
Proof.
  intros Hns. unfold step, run, rendered, returned. simpl.
  rewrite (onload_not_sequence _ _ Hns).
  destruct (threw (JSON_parse text)); simpl;
    (eexists; split; [reflexivity|]); simpl;
    repeat split; rewrite ?app_nil_r; reflexivity.
Qed.

(** The commands of [merge_imported], whatever it is given. *)
Lemma merge_imported_shape (history : list JValue) (imported : JValue)
    (cmds : list Cmd) :
  merge_imported history imported = Ok cmds ->
  cmds = [] \/ cmds = [alert Msg.nothing_imported] \/
  exists newCards,
    cmds = [setCards (fun prev => Ok (newCards ++ prev));
            alert (Msg.imported (length newCards))].
Proof.
  unfold merge_imported. destruct imported; try (intros [= <-]; auto).
  destruct (mapM_js _ history) as [ids|e]; simpl; [|discriminate].
  destruct (filterM _ elems) as [newCards|e]; simpl; [|discriminate].
  destruct (Nat.ltb 0 (length newCards)); intros [= <-]; eauto.
Qed.

Lemma onload_shape (history : list JValue) (text : string) :
  let cmds := onload history text in
  cmds = [] \/ (exists msg, cmds = [alert msg]) \/
  exists newCards,
    cmds = [setCards (fun prev => Ok (newCards ++ prev));
            alert (Msg.imported (length newCards))].
Proof.
  simpl. unfold onload.
  destruct (JSON_parse text) as [v|e]; simpl; [|eauto].
  destruct (merge_imported history v) as [cmds|e] eqn:Hm; [|eauto].
  apply merge_imported_shape in Hm as [->|[->|[newCards ->]]]; eauto.
Qed.

(** No handler writes under the history key: only the save effect does. *)
Lemma handle_no_history_write (st : AppState) (ev : Event) :
  existsb (is_storage_write STORAGE_KEY) (handle st ev) = false.
Proof.
  destruct ev as [term settled uuid now|id confirmed|isoNow|file|key]; simpl.
  - unfold handleAnalyze. destruct (apiKey st); [reflexivity|].
    destruct settled as [entry|[[|c m]|]]; try reflexivity.
    destruct (includes (String c m) "API Key"); reflexivity.
  - destruct confirmed; reflexivity.
  - reflexivity.
  - destruct file as [text|]; [|reflexivity]. simpl.
    destruct (onload_shape (cards st) text) as [->|[[msg ->]|[newCards ->]]];
      reflexivity.
  - destruct key; reflexivity.
Qed.

(** The mounted component has saved its History. *)
Lemma mount_persisted (storage : gmap string string) (env_API_KEY : option string)
    (s : Session) :
  mount storage env_API_KEY = Ok s -> persisted s.
Proof.
  unfold mount, rendered, returned, persisted, useEffect_load.
  destruct (storage !! STORAGE_KEY) as [[|c saved]|]; simpl;
    try (intros [= <-]; simpl; apply lookup_insert_eq).
  destruct (JSON_parse (String c saved)) as [v|e]; simpl.
  - destruct v; simpl; try discriminate.
    intros [= <-]. simpl. apply lookup_insert_eq.
  - intros [= <-]. simpl. apply lookup_insert_eq.
Qed.

(** C6, as the code has it: whenever an event changes the History, the
    render that follows it runs the save effect, after which the value
    under the history key is the serialization of the History in memory
    (and an event that leaves the History alone leaves a saved History
    saved); the handler itself has returned before, with the value under
    the history key untouched. *)
Theorem history_saved_by_effect (s s' : Session) (ev : Event) :
  step s ev = Ok s' ->
  cards (app s') <> cards (app s) \/ persisted s ->
  persisted s' /\
  localStorage (env (returned (handle (app s) ev) s)) !! STORAGE_KEY
  = localStorage (env s) !! STORAGE_KEY.
Proof.
  intros Hstep Hpre.
  assert (Huntouched :
    localStorage (env (returned (handle (app s) ev) s)) !! STORAGE_KEY
    = localStorage (env s) !! STORAGE_KEY).
  { simpl. apply perform_all_other_key, handle_no_history_write. }
  split; [|exact Huntouched].
  unfold step, run, rendered in Hstep.
  destruct (commit (handle (app s) ev) (app (returned (handle (app s) ev) s)))
    as [st|e] eqn:Hcommit; simpl in Hstep; [|discriminate].
  destruct (existsb sets_cards (handle (app s) ev)) eqn:Hsets.
  - injection Hstep as <-. unfold persisted. simpl. apply lookup_insert_eq.
  - injection Hstep as <-.
    pose proof (commit_keeps_cards _ _ _ Hsets Hcommit) as Hsame.
    destruct Hpre as [Hchanged|Hsaved].
    + exfalso. apply Hchanged. exact Hsame.
    + unfold persisted in *. unfold returned in *. cbn [app env] in *.
      rewrite Huntouched, Hsame. exact Hsaved.
Qed.

(** *** Import *)

Lemma is_new_card_defined (ids : list (option JValue)) (c : JValue) :
  c <> JNull ->
  is_new_card ids c
  = Ok (ToBoolean (field c "term") && ToBoolean (field c "meaning")
        && negb (Set_has ids (field c "id"))).
Proof.
  intros Hc. unfold is_new_card. rewrite !get_prop_defined by exact Hc. simpl.
  destruct (ToBoolean (field c "term")); simpl; [|reflexivity].
  destruct (ToBoolean (field c "meaning")); reflexivity.
Qed.

Lemma is_new_card_returns (ids : list (option JValue)) (c : JValue) (b : bool) :
  is_new_card ids c = Ok b -> c <> JNull.
Proof. intros Hb ->. discriminate. Qed.

Lemma existing_ids (history : list JValue) :
  Forall (fun c => c <> JNull) history ->
  mapM_js (fun c => get_prop c "id") history
  = Ok (map (fun c => field c "id") history).
Proof.
  intros Hnn. apply mapM_js_pure.
  eapply Forall_impl; [exact Hnn|]. intros c Hc. apply get_prop_defined, Hc.
Qed.

Lemma existing_ids_inv (history : list JValue) (found : list (option JValue)) :
  mapM_js (fun c => get_prop c "id") history = Ok found ->
  found = ids history.
Proof.
  intros Hfound. apply mapM_js_inv in Hfound. unfold ids.
  induction Hfound as [|c y cs ys Hy _ IH]; [reflexivity|].
  cbn [map]. rewrite IH. f_equal.
  destruct c; try (injection Hy as <-; reflexivity). discriminate.
Qed.

(** The commands of an import whose file and history hold no [null]. *)
Lemma merge_imported_accepts (history items : list JValue) :
  Forall (fun c => c <> JNull) history ->
  Forall (fun c => c <> JNull) items ->
  merge_imported history (JArr items)
  = let accepted := List.filter (accepts history) items in
    Ok (if Nat.ltb 0 (length accepted)
        then [setCards (fun prev => Ok (accepted ++ prev));
              alert (Msg.imported (length accepted))]
        else [alert Msg.nothing_imported]).
Proof.
  intros Hh Hi. unfold merge_imported. rewrite (existing_ids _ Hh).
  change (Ok ?x ≫= ?f) with (f x). cbv beta.
  rewrite (filterM_pure _ (accepts history)).
  - reflexivity.
  - eapply Forall_impl; [exact Hi|]. intros c Hc.
    apply is_new_card_defined, Hc.
Qed.

(** C2, as the code has it: when neither the History nor the file holds
    a [null], the import takes exactly the candidates with a truthy
    [term] and [meaning] whose [id] is not found among the ids of the
    History, puts them in front of the History as one block in the order
    of the file, and reports their number. *)
Theorem import_merges_new_cards (s : Session) (text : string) (C : list JValue) :
  JSON_parse text = Ok (JArr C) ->
  Forall (fun c => c <> JNull) (cards (app s)) ->
  Forall (fun c => c <> JNull) C ->
  let accepted := List.filter (accepts (cards (app s))) C in
  exists s',
    step s (ImportFile (Some text)) = Ok s' /\
    cards (app s') = accepted ++ cards (app s) /\
    alerts (env s')
    = alerts (env s)
      ++ [if Nat.ltb 0 (length accepted)
          then Msg.imported (length accepted)
          else Msg.nothing_imported].
Proof.
  intros Hparse Hh Hc accepted.
  unfold step, run, rendered, returned.
  change (handle (app s) (ImportFile (Some text))) with (onload (cards (app s)) text).
  unfold onload. rewrite Hparse.
  change (Ok ?x ≫= ?f) with (f x).
  rewrite (merge_imported_accepts _ _ Hh Hc). fold accepted. cbv zeta.
  destruct accepted as [|c0 rest]; cbn -[Msg.imported];
    (eexists; split; [reflexivity|]); cbn -[Msg.imported]; split; reflexivity.
Qed.

Lemma sameValueZero_refl (v : option JValue) :
  primitive v = true -> sameValueZero v v = true.
Proof.
  destruct v as [[|b|n|str|elems|fields]|]; simpl; try reflexivity; try discriminate.
  - intros _. destruct b; reflexivity.
  - intros _. apply Z.eqb_refl.
  - intros _. apply String.eqb_refl.
Qed.

Lemma Set_has_app (ids1 ids2 : list (option JValue)) (x : option JValue) :
  Set_has (ids1 ++ ids2) x = Set_has ids1 x || Set_has ids2 x.
Proof. apply existsb_app. Qed.

Lemma Set_has_member (ids : list (option JValue)) (x : option JValue) :
  primitive x = true -> In x ids -> Set_has ids x = true.
Proof.
  intros Hp Hin. apply existsb_exists. exists x. split; [exact Hin|].
  apply sameValueZero_refl, Hp.
Qed.

Lemma filter_none {A} (xs : list A) : List.filter (fun _ => false) xs = [].
Proof. induction xs; simpl; auto. Qed.

(** Once the candidates taken from a file are in the History, the same
    file has nothing new, provided ids are compared by value. *)
Lemma second_import_takes_nothing
    (ids : list (option JValue)) (C newCards : list JValue) :
  Forall (fun c => primitive (field c "id") = true) C ->
  filterM (is_new_card ids) C = Ok newCards ->
  filterM (is_new_card (map (fun c => field c "id") newCards ++ ids)) C = Ok [].
Proof.
  intros Hprim Hfirst.
  destruct (filterM_inv _ _ _ Hfirst) as (q & Hq & ->).
  rewrite (filterM_pure _ (fun _ => false)); [rewrite filter_none; reflexivity|].
  rewrite List.Forall_forall in *. intros c Hin.
  specialize (Hq c Hin). specialize (Hprim c Hin).
  pose proof (is_new_card_returns _ _ _ Hq) as Hnn.
  rewrite is_new_card_defined in Hq by exact Hnn.
  rewrite is_new_card_defined by exact Hnn. f_equal.
  destruct (ToBoolean (field c "term")); [|reflexivity].
  destruct (ToBoolean (field c "meaning")); [|reflexivity].
  simpl in *. rewrite Set_has_app.
  destruct (Set_has ids (field c "id")) eqn:Hold.
  - rewrite orb_true_r. reflexivity.
  - rewrite (Set_has_member _ _ Hprim); [reflexivity|].
    apply in_map_iff. exists c. split; [reflexivity|].
    apply filter_In. split; [exact Hin|]. injection Hq as <-. reflexivity.
Qed.

Lemma mapM_js_app {A B} (f : A -> js B) (xs1 xs2 : list A) (ys1 ys2 : list B) :
  mapM_js f xs1 = Ok ys1 -> mapM_js f xs2 = Ok ys2 ->
  mapM_js f (xs1 ++ xs2) = Ok (ys1 ++ ys2).
Proof.
  revert ys1. induction xs1 as [|x xs1 IH]; simpl; intros ys1 H1 H2.
  - injection H1 as <-. exact H2.
  - destruct (f x) as [y|e]; simpl in *; [|discriminate].
    destruct (mapM_js f xs1) as [ys|e]; simpl in *; [|discriminate].
    injection H1 as <-. rewrite (IH ys eq_refl H2). reflexivity.
Qed.

(** The cards an import took are no [null]. *)
Lemma new_cards_ids (ids : list (option JValue)) (C newCards : list JValue) :
  filterM (is_new_card ids) C = Ok newCards ->
  mapM_js (fun c => get_prop c "id") newCards
  = Ok (map (fun c => field c "id") newCards).
Proof.
  intros Hfirst. destruct (filterM_inv _ _ _ Hfirst) as (q & Hq & ->).
  apply existing_ids. rewrite List.Forall_forall in *. intros c Hin.
  apply filter_In in Hin as [Hin _].
  eapply is_new_card_returns, Hq, Hin.
Qed.

(** C5, as the code has it: when the ids of the candidates are compared
    by value (none is an object or an array), importing the same file a
    second time sets no cards and leaves the History as the first import
    left it. *)
Theorem import_twice_same_as_once (s : Session) (text : string) (C : list JValue) :
  JSON_parse text = Ok (JArr C) ->
  Forall (fun c => primitive (field c "id") = true) C ->
  exists s1 s2,
    step s (ImportFile (Some text)) = Ok s1 /\
    step s1 (ImportFile (Some text)) = Ok s2 /\
    cards (app s2) = cards (app s1) /\
    existsb sets_cards (handle (app s1) (ImportFile (Some text))) = false.
Proof.
  intros Hparse Hprim.
  assert (Hon : forall h, onload h text
                = match merge_imported h (JArr C) with
                  | Ok cmds => cmds
                  | Throw _ => [alert Msg.import_failed]
                  end).
  { intros h. unfold onload. rewrite Hparse. reflexivity. }
  unfold step, run, rendered, returned.
  change (handle ?st (ImportFile (Some text))) with (onload (cards st) text).
  cbn [app env].
  rewrite (Hon (cards (app s))). unfold merge_imported.
  destruct (mapM_js (fun c => get_prop c "id") (cards (app s))) as [ids|e] eqn:Hids.
  2:{ cbn -[Msg.imported]. do 2 eexists. split; [reflexivity|].
      cbn [app cards]. rewrite Hon. unfold merge_imported. rewrite Hids.
      cbn. split; [reflexivity|]. split; reflexivity. }
  change (Ok ids ≫= ?f) with (f ids). cbv beta.
  destruct (filterM (is_new_card ids) C) as [newCards|e] eqn:Hnew.
  2:{ cbn -[Msg.imported]. do 2 eexists. split; [reflexivity|].
      cbn [app cards]. rewrite Hon. unfold merge_imported. rewrite Hids.
      cbn. rewrite Hnew. cbn. split; [reflexivity|]. split; reflexivity. }
  change (Ok newCards ≫= ?f) with (f newCards). cbv beta.
  destruct (Nat.ltb 0 (length newCards)) eqn:Hlen.
  2:{ cbn -[Msg.imported]. do 2 eexists. split; [reflexivity|].
      cbn [app cards]. rewrite Hon. unfold merge_imported. rewrite Hids.
      change (Ok ids ≫= ?f) with (f ids). cbv beta. rewrite Hnew.
      change (Ok newCards ≫= ?f) with (f newCards). cbv beta. rewrite Hlen.
      cbn. split; [reflexivity|]. split; reflexivity. }
  - cbn -[Msg.imported]. do 2 eexists. split; [reflexivity|].
    cbn [app cards]. rewrite Hon. unfold merge_imported.
    rewrite (mapM_js_app _ _ _ _ _ (new_cards_ids _ _ _ Hnew) Hids).
    change (Ok ?x ≫= ?f) with (f x). cbv beta.
    rewrite (second_import_takes_nothing _ _ _ Hprim Hnew).
    cbn. split; [reflexivity|]. split; reflexivity.
Qed.

(** *** Export and import *)

Lemma truthy_is_not_null (c : JValue) (k : string) :
  ToBoolean (field c k) = true -> c <> JNull.
Proof. intros Ht ->. discriminate. Qed.

Lemma accepts_into_empty (cs : list JValue) :
  Forall (fun c => ToBoolean (field c "term") && ToBoolean (field c "meaning") = true) cs ->
  List.filter (accepts []) cs = cs.
Proof.
  induction 1 as [|c cs Hc _ IH]; simpl; [reflexivity|].
  unfold accepts at 1. rewrite Hc. simpl. rewrite IH. reflexivity.
Qed.

(** Export and import on any codec that reads the History back from its
    indented serialization: the file that export downloads, imported
    into an empty History, gives that History again. *)
Lemma export_import_on_codec
    (H0 : list JValue) (isoNow : string) (s : Session) :
  Forall (fun c => ToBoolean (field c "term") && ToBoolean (field c "meaning") = true) H0 ->
  JSON_parse (JSON_stringify_indent2 (JArr H0)) = Ok (JArr H0) ->
  cards (app s) = [] ->
  exists name file s',
    handleExport H0 isoNow = [download name file] /\
    step s (ImportFile (Some file)) = Ok s' /\
    cards (app s') = H0.
Proof.
  intros Hshape Hcodec Hempty.
  assert (Hnn : Forall (fun c => c <> JNull) H0).
  { eapply Forall_impl; [exact Hshape|]. simpl. intros c Hc.
    apply andb_true_iff in Hc as [Ht _]. eapply truthy_is_not_null, Ht. }
  do 2 eexists.
  cut (exists s', step s (ImportFile (Some (JSON_stringify_indent2 (JArr H0)))) = Ok s'
                  /\ cards (app s') = H0).
  { intros (s' & Hstep & Hcards). exists s'. split; [reflexivity|]. split; assumption. }
  unfold step, run, rendered, returned.
  change (handle (app s) (ImportFile (Some ?f))) with (onload (cards (app s)) f).
  unfold onload. rewrite Hcodec, Hempty.
  change (Ok ?x ≫= ?f) with (f x).
  rewrite (merge_imported_accepts [] H0 (List.Forall_nil _) Hnn). cbv zeta.
  rewrite (accepts_into_empty _ Hshape).
  destruct H0 as [|c cs]; cbn -[Msg.imported];
    (eexists; split; [reflexivity|]); cbn;
    rewrite ?Hempty, ?app_nil_r; reflexivity.
Qed.

(** *** Uniqueness of ids *)

Lemma own_property_set_same (k : string) (v : JValue) (fields : list (string * JValue)) :
  own_property k (set_property k v fields) = Some v.
Proof.
  induction fields as [|[k' v'] rest IH]; simpl.
  - rewrite String.eqb_refl. reflexivity.
  - destruct (String.eqb k k') eqn:Hk; simpl.
    + rewrite String.eqb_refl. reflexivity.
    + rewrite Hk. exact IH.
Qed.

Lemma own_property_set_other (k k' : string) (v : JValue)
    (fields : list (string * JValue)) :
  k <> k' -> own_property k (set_property k' v fields) = own_property k fields.
Proof.
  intros Hne. apply String.eqb_neq in Hne.
  induction fields as [|[k0 v0] rest IH]; simpl.
  - rewrite Hne. reflexivity.
  - destruct (String.eqb k' k0) eqn:Hk'; simpl.
    + apply String.eqb_eq in Hk' as <-. rewrite Hne. reflexivity.
    + rewrite IH. reflexivity.
Qed.

(** The id of a new card is the generated one, whatever the entry holds. *)
Lemma newCard_id (entry : list (string * JValue)) (uuid : string) (now : Z) :
  field (newCard entry uuid now) "id" = Some (JStr uuid).
Proof.
  unfold newCard, field.
  rewrite own_property_set_other by discriminate.
  apply own_property_set_same.
Qed.

Lemma NoDup_ids_filter (q : JValue -> bool) (cs : list JValue) :
  NoDup (ids cs) -> NoDup (ids (List.filter q cs)).
Proof.
  unfold ids. induction cs as [|c cs IH]; simpl; intros Hnd; [constructor|].
  apply NoDup_cons in Hnd as [Hnotin Hrest].
  destruct (q c); simpl; [|auto].
  apply NoDup_cons. split; [|auto].
  intros Hin. apply Hnotin.
  apply list_elem_of_In, in_map_iff in Hin as (c' & Heq & Hin').
  apply list_elem_of_In, in_map_iff. exists c'. split; [exact Heq|].
  apply filter_In in Hin'. tauto.
Qed.

Lemma Set_has_false (xs : list (option JValue)) (x : option JValue) :
  primitive x = true -> Set_has xs x = false -> x ∉ xs.
Proof.
  intros Hp Hno Hin. apply list_elem_of_In in Hin.
  rewrite (Set_has_member _ _ Hp Hin) in Hno. discriminate.
Qed.

(** What the import adds keeps the ids of the History unique, as long as
    the ids of the file are unique among themselves and compared by
    value. *)
Lemma NoDup_ids_merge (existing : list JValue) (C newCards : list JValue) :
  NoDup (ids existing) -> NoDup (ids C) ->
  Forall (fun c => primitive (field c "id") = true) C ->
  filterM (is_new_card (ids existing)) C = Ok newCards ->
  NoDup (ids (newCards ++ existing)).
Proof.
  intros Hex HC Hprim Hnew.
  destruct (filterM_inv _ _ _ Hnew) as (q & Hq & ->).
  unfold ids. rewrite map_app. apply NoDup_app. split; [|split].
  - apply NoDup_ids_filter, HC.
  - intros x Hx. apply list_elem_of_In, in_map_iff in Hx as (c & <- & Hc).
    apply filter_In in Hc as [Hin Hqc].
    rewrite List.Forall_forall in Hq, Hprim.
    specialize (Hq c Hin). specialize (Hprim c Hin).
    rewrite is_new_card_defined in Hq by (eapply is_new_card_returns, Hq).
    injection Hq as Hq. rewrite Hqc in Hq.
    apply andb_true_iff in Hq as [_ Hq]. apply negb_true_iff in Hq.
    apply Set_has_false; assumption.
  - exact Hex.
Qed.

(** X22: the uniqueness of ids is kept by every event, provided that the
    generated id of a new card is not in use and that an imported file
    has unique ids that are compared by value. *)
Lemma unique_ids_preserved (s s' : Session) (ev : Event) :
  step s ev = Ok s' ->
  NoDup (ids (cards (app s))) ->
  match ev with
  | Analyze _ (Resolved _) uuid _ => Some (JStr uuid) ∉ ids (cards (app s))
  | ImportFile (Some text) =>
      forall C, JSON_parse text = Ok (JArr C) ->
                NoDup (ids C) /\ Forall (fun c => primitive (field c "id") = true) C
  | _ => True
  end ->
  NoDup (ids (cards (app s'))).
Proof.
  intros Hstep Hnd Hev.
  assert (Hkeep : existsb sets_cards (handle (app s) ev) = false ->
                  NoDup (ids (cards (app s')))).
  { intros Hno. unfold step, run, rendered in Hstep.
    destruct (commit _ _) as [st|e] eqn:Hcommit; simpl in Hstep; [|discriminate].
    rewrite Hno in Hstep. injection Hstep as <-. cbn [app].
    rewrite (commit_keeps_cards _ _ _ Hno Hcommit). exact Hnd. }
  unfold step, run, rendered in Hstep.
  destruct ev as [term0 settled uuid now|id confirmed|isoNow|[text|]|key].
  - cbn [handle] in *. unfold handleAnalyze in *.
    destruct (apiKey (app s)) as [|k0 k]; [apply Hkeep; reflexivity|].
    destruct settled as [entry|message].
    + cbn -[newCard] in Hstep. injection Hstep as <-.
      cbn -[newCard]. unfold ids in *. cbn [map]. rewrite newCard_id.
      apply NoDup_cons. split; assumption.
    + apply Hkeep. destruct message as [[|c m]|]; try reflexivity.
      destruct (includes (String c m) "API Key"); reflexivity.
  - destruct confirmed; [|apply Hkeep; reflexivity].
    cbn in Hstep.
    destruct (remove id (cards (app s))) as [kept|e] eqn:Hrem; [|discriminate].
    cbn in Hstep. injection Hstep as <-. cbn.
    unfold remove in Hrem. destruct (filterM_inv _ _ _ Hrem) as (q & _ & ->).
    apply NoDup_ids_filter, Hnd.
  - apply Hkeep. reflexivity.
  - cbn [handle handleImportFile] in *. unfold onload in *.
    destruct (JSON_parse text) as [v|e] eqn:Hparse; [|apply Hkeep; reflexivity].
    change (Ok v ≫= ?f) with (f v) in *.
    destruct v as [| | | |C|]; try (apply Hkeep; reflexivity).
    destruct (Hev C eq_refl) as [HC Hprim].
    unfold merge_imported in *.
    destruct (mapM_js (fun c => get_prop c "id") (cards (app s))) as [ids0|e] eqn:Hids;
      [|apply Hkeep; reflexivity].
    change (Ok ids0 ≫= ?f) with (f ids0) in *. cbv beta in *.
    apply existing_ids_inv in Hids. subst ids0.
    destruct (filterM (is_new_card (ids (cards (app s)))) C) as [newCards|e] eqn:Hnew;
      [|apply Hkeep; reflexivity].
    change (Ok newCards ≫= ?f) with (f newCards) in *. cbv beta in *.
    destruct (Nat.ltb 0 (length newCards)); [|apply Hkeep; reflexivity].
    cbn -[Msg.imported] in Hstep.
    injection Hstep as <-. cbn [app cards].
    eapply NoDup_ids_merge; eassumption.
  - apply Hkeep. reflexivity.
  - apply Hkeep. destruct key; reflexivity.
Qed.

End Properties.

(** ** Runs on the reference codec *)

Section Runs.
Import RefJSON Examples.

(** Two analyses in a row: the newest card comes first. *)
Example analyze_twice_newest_first :
  exists s',
    steps empty_session
      [SaveApiKey "secret";
       Analyze "賄賂" (Resolved (entry_fields bribe)) "id-1" 1700000000000;
       Analyze "情報" (Resolved (entry_fields information)) "id-2" 1700000000500]
    = Ok s' /\
    cards (app s') = [card_information; card_bribe] /\
    requests (env s') = [("賄賂", "secret"); ("情報", "secret")] /\
    persisted s'.
Proof.
  eexists. split; [vm_compute; reflexivity|].
  split; [reflexivity|]. split; [reflexivity|]. vm_compute. reflexivity.
Qed.

(** C1: the import checks a candidate against the ids of the History
    only, not against the other candidates of the file.  Importing a
    backup that holds the same record twice into an empty History leaves
    two cards with the id [a]. *)
Theorem import_admits_duplicate_ids :
  mount ∅ None = Ok empty_session /\
  JSON_parse file_same_id_twice = Ok (JArr [record (JStr "a"); record (JStr "a")]) /\
  exists s',
    step empty_session (ImportFile (Some file_same_id_twice)) = Ok s' /\
    cards (app s') = [record (JStr "a"); record (JStr "a")] /\
    ids (cards (app s')) = [Some (JStr "a"); Some (JStr "a")] /\
    ~ NoDup (ids (cards (app s'))) /\
    alerts (env s') = [Msg.imported 2].
Proof.
  split; [vm_compute; reflexivity|].
  split; [vm_compute; reflexivity|].
  eexists. split; [vm_compute; reflexivity|].
  split; [reflexivity|]. split; [reflexivity|]. split; [|reflexivity].
  intros Hnd. apply NoDup_cons in Hnd as [Hnotin _]. apply Hnotin. left.
Qed.

(** C2 fails as stated.  With a [null] among the candidates the import
    takes none of them and reports a failure, where the specification
    takes the good one; and a candidate whose [id] is an array is taken
    although a card with that very [id] is in the History. *)
Lemma import_differs_from_specified :
  (JSON_parse file_with_null = Ok (JArr [record (JStr "a"); JNull]) /\
   mergeImport_as_specified [] [record (JStr "a"); JNull] = ([record (JStr "a")], 1) /\
   exists s',
     step empty_session (ImportFile (Some file_with_null)) = Ok s' /\
     cards (app s') = [] /\
     alerts (env s') = [Msg.import_failed]) /\
  (JSON_parse file_array_id = Ok (JArr [record (JArr [])]) /\
   mergeImport_as_specified [record (JArr [])] [record (JArr [])]
   = ([record (JArr [])], 0) /\
   exists s',
     step (session_of [record (JArr [])] "") (ImportFile (Some file_array_id)) = Ok s' /\
     cards (app s') = [record (JArr []); record (JArr [])] /\
     alerts (env s') = [Msg.imported 1]).
Proof.
  split.
  - split; [vm_compute; reflexivity|]. split; [vm_compute; reflexivity|].
    eexists. split; [vm_compute; reflexivity|]. vm_compute. split; reflexivity.
  - split; [vm_compute; reflexivity|]. split; [vm_compute; reflexivity|].
    eexists. split; [vm_compute; reflexivity|]. vm_compute. split; reflexivity.
Qed.

(** C3 fails as stated: a file that holds a JSON object parses, is no
    sequence, and its import reports nothing. *)
Lemma import_of_object_reports_nothing :
  JSON_parse "{}" = Ok (JObj []) /\
  (forall items, JSON_parse "{}" <> Ok (JArr items)) /\
  handleImportFile [] (Some "{}") = [] /\
  exists s',
    step empty_session (ImportFile (Some "{}")) = Ok s' /\
    alerts (env s') = [].
Proof.
  split; [vm_compute; reflexivity|].
  split; [intros items; vm_compute; discriminate|].
  split; [vm_compute; reflexivity|].
  eexists. split; [vm_compute; reflexivity|]. reflexivity.
Qed.

(** C5 fails as stated: a record whose [id] is an array is taken again
    by the second import of the same file. *)
Lemma import_twice_takes_array_id_twice :
  JSON_parse file_array_id = Ok (JArr [record (JArr [])]) /\
  exists s1 s2,
    step empty_session (ImportFile (Some file_array_id)) = Ok s1 /\
    step s1 (ImportFile (Some file_array_id)) = Ok s2 /\
    cards (app s1) = [record (JArr [])] /\
    cards (app s2) = [record (JArr []); record (JArr [])] /\
    cards (app s2) <> cards (app s1).
Proof.
  split; [vm_compute; reflexivity|].
  do 2 eexists. split; [vm_compute; reflexivity|].
  split; [vm_compute; reflexivity|].
  vm_compute. repeat split; try reflexivity. discriminate.
Qed.

(** C6 fails as stated: when the confirmed delete of the only card has
    returned, the storage still holds the serialization of that card, not
    of the emptied History. *)
Lemma delete_returns_before_save :
  let s := session_of [record (JStr "a")] "" in
  persisted s /\
  exists s',
    step s (Delete "a" true) = Ok s' /\
    cards (app s') = [] /\
    localStorage (env (returned (handle (app s) (Delete "a" true)) s)) !! STORAGE_KEY
    = Some (JSON_stringify (JArr [record (JStr "a")])) /\
    localStorage (env (returned (handle (app s) (Delete "a" true)) s)) !! STORAGE_KEY
    <> Some (JSON_stringify (JArr (cards (app s')))).
Proof.
  split; [vm_compute; reflexivity|].
  eexists. split; [vm_compute; reflexivity|].
  split; [reflexivity|]. split; [vm_compute; reflexivity|].
  vm_compute. discriminate.
Qed.

(** C8 fails as stated: an empty string under the history key is
    present and does not parse, and mounting logs nothing. *)
Lemma empty_stored_history_not_logged :
  let storage : gmap string string := <[STORAGE_KEY := ""]> ∅ in
  storage !! STORAGE_KEY = Some "" /\
  JSON_parse "" = Throw SyntaxError /\
  exists s,
    mount storage None = Ok s /\
    cards (app s) = [] /\
    console (env s) = [].
Proof.
  split; [vm_compute; reflexivity|]. split; [vm_compute; reflexivity|].
  eexists. split; [vm_compute; reflexivity|]. split; reflexivity.
Qed.

(** *** The theorems at concrete sessions *)

Lemma delete_removes_matching_card_witness :
  let s := session_of [card_information; card_bribe] "" in
  Forall (fun c => c <> JNull) (cards (app s)) /\
  exists s', step s (Delete "id-1" true) = Ok s' /\
             cards (app s') = [card_information].
Proof.
  intros s.
  assert (Hnn : Forall (fun c => c <> JNull) (cards (app s))).
  { repeat constructor; discriminate. }
  split; [exact Hnn|].
  destruct (delete_removes_matching_card s "id-1" Hnn) as (s' & Hstep & Hcards & _).
  exists s'. split; [exact Hstep|]. rewrite Hcards. vm_compute. reflexivity.
Defined.

Lemma analyze_without_credential_witness :
  let s0 := session_of [card_bribe] "secret" in
  let s := session_of [card_bribe] "" in
  step s0 (SaveApiKey "") = Ok s /\
  exists s',
    step s (Analyze "情報" (Resolved (entry_fields information)) "id-2" 5) = Ok s' /\
    error (app s') = Some Msg.no_api_key /\
    requests (env s') = [] /\
    cards (app s') = [card_bribe].
Proof.
  intros s0 s.
  assert (Hremoved : step s0 (SaveApiKey "") = Ok s) by (vm_compute; reflexivity).
  split; [exact Hremoved|].
  destruct (analyze_without_credential s "情報" (Resolved (entry_fields information))
              "id-2" 5 (or_intror (ex_intro _ s0 Hremoved)))
    as (s' & Hstep & Herr & _ & Hreq & Hcards & _).
  exists s'. split; [exact Hstep|]. split; [exact Herr|].
  split; [exact Hreq|exact Hcards].
Defined.

Lemma credential_falls_back_to_environment_witness :
  let storage : gmap string string := ∅ in
  let s := mkSession (mkAppState [] false None "env-key" false)
                     (mkEnv (<[STORAGE_KEY := "[]"]> ∅) [] [] [] []) in
  storage !! API_KEY_STORAGE_KEY = None /\
  apiKey (initial_state storage (Some "env-key")) = "env-key" /\
  apiKey (initial_state storage None) = "" /\
  mount storage (Some "env-key") = Ok s /\
  exists s',
    step s (Analyze "賄賂" (Resolved (entry_fields bribe)) "id-1" 1700000000000) = Ok s' /\
    cards (app s') = [card_bribe] /\
    requests (env s') = [("賄賂", "env-key")].
Proof.
  intros storage s.
  assert (Hnone : storage !! API_KEY_STORAGE_KEY = None) by reflexivity.
  assert (Hmount : mount storage (Some "env-key") = Ok s) by (vm_compute; reflexivity).
  split; [exact Hnone|]. split.
  { exact (proj1 (credential_falls_back_to_environment storage (Some "env-key") Hnone)). }
  split.
  { exact (proj1 (credential_falls_back_to_environment storage None Hnone)). }
  split; [exact Hmount|].
  destruct (proj2 (credential_falls_back_to_environment storage (Some "env-key") Hnone)
              s Hmount) as [_ Hanalyze].
  destruct (Hanalyze "賄賂" (entry_fields bribe) "id-1" 1700000000000%Z
              ltac:(discriminate)) as (s' & Hstep & Hcards & Hreq).
  exists s'. split; [exact Hstep|]. split; [exact Hcards|exact Hreq].
Defined.

Lemma load_malformed_history_witness :
  let storage : gmap string string := <[STORAGE_KEY := file_truncated]> ∅ in
  storage !! STORAGE_KEY = Some file_truncated /\
  JSON_parse file_truncated = Throw SyntaxError /\
  exists s, mount storage None = Ok s /\ cards (app s) = [] /\
            console (env s) = [Msg.parse_history_failed].
Proof.
  intros storage.
  assert (Hsaved : storage !! STORAGE_KEY = Some file_truncated)
    by (vm_compute; reflexivity).
  assert (Hparse : JSON_parse file_truncated = Throw SyntaxError)
    by (vm_compute; reflexivity).
  split; [exact Hsaved|]. split; [exact Hparse|].
  exact (load_malformed_history storage None file_truncated SyntaxError Hsaved Hparse).
Defined.

Lemma import_not_a_sequence_witness :
  let s := session_of [card_information; card_bribe] "" in
  (forall items, JSON_parse file_truncated <> Ok (JArr items)) /\
  exists s',
    step s (ImportFile (Some file_truncated)) = Ok s' /\
    app s' = app s /\
    localStorage (env s') = localStorage (env s) /\
    alerts (env s') = [Msg.import_failed].
Proof.
  intros s.
  assert (Hns : forall items, JSON_parse file_truncated <> Ok (JArr items)).
  { intros items. vm_compute. discriminate. }
  split; [exact Hns|].
  destruct (import_not_a_sequence s file_truncated Hns)
    as (s' & Hstep & Happ & Hstore & Halerts).
  exists s'. split; [exact Hstep|]. split; [exact Happ|]. split; [exact Hstore|].
  rewrite Halerts. vm_compute. reflexivity.
Defined.

Lemma history_saved_by_effect_witness :
  let s := session_of [record (JStr "a")] "" in
  let s' := session_of [] "" in
  step s (Delete "a" true) = Ok s' /\
  cards (app s') <> cards (app s) /\
  persisted s' /\
  localStorage (env (returned (handle (app s) (Delete "a" true)) s)) !! STORAGE_KEY
  = localStorage (env s) !! STORAGE_KEY.
Proof.
  intros s s'.
  assert (Hstep : step s (Delete "a" true) = Ok s') by (vm_compute; reflexivity).
  assert (Hchanged : cards (app s') <> cards (app s)) by discriminate.
  split; [exact Hstep|]. split; [exact Hchanged|].
  exact (history_saved_by_effect s s' (Delete "a" true) Hstep (or_introl Hchanged)).
Defined.

Lemma import_merges_new_cards_witness :
  let s := session_of [card_bribe] "" in
  JSON_parse file_backup = Ok (JArr backup) /\
  Forall (fun c => c <> JNull) (cards (app s)) /\
  Forall (fun c => c <> JNull) backup /\
  exists s',
    step s (ImportFile (Some file_backup)) = Ok s' /\
    cards (app s') = [card_information; record (JStr "x"); card_bribe] /\
    alerts (env s') = [Msg.imported 2].
Proof.
  intros s.
  assert (Hparse : JSON_parse file_backup = Ok (JArr backup)) by (vm_compute; reflexivity).
  assert (Hh : Forall (fun c => c <> JNull) (cards (app s))).
  { repeat constructor; discriminate. }
  assert (Hc : Forall (fun c => c <> JNull) backup).
  { repeat constructor; discriminate. }
  split; [exact Hparse|]. split; [exact Hh|]. split; [exact Hc|].
  destruct (import_merges_new_cards s file_backup backup Hparse Hh Hc)
    as (s' & Hstep & Hcards & Halerts).
  exists s'. split; [exact Hstep|]. split.
  - rewrite Hcards. vm_compute. reflexivity.
  - rewrite Halerts. vm_compute. reflexivity.
Defined.

Lemma import_twice_same_as_once_witness :
  let s := session_of [card_bribe] "" in
  JSON_parse file_backup = Ok (JArr backup) /\
  Forall (fun c => primitive (field c "id") = true) backup /\
  exists s1 s2,
    step s (ImportFile (Some file_backup)) = Ok s1 /\
    step s1 (ImportFile (Some file_backup)) = Ok s2 /\
    cards (app s2) = cards (app s1).
Proof.
  intros s.
  assert (Hparse : JSON_parse file_backup = Ok (JArr backup)) by (vm_compute; reflexivity).
  assert (Hprim : Forall (fun c => primitive (field c "id") = true) backup).
  { repeat constructor. }
  split; [exact Hparse|]. split; [exact Hprim|].
  destruct (import_twice_same_as_once s file_backup backup Hparse Hprim)
    as (s1 & s2 & Hfirst & Hsecond & Hsame & _).
  exists s1, s2. split; [exact Hfirst|]. split; [exact Hsecond|exact Hsame].
Defined.

(** C4: for every History whose cards have a truthy [term] and
    [meaning] (and, as every JavaScript object, each key once), the file
    that export downloads, imported into an empty History, gives that
    History again: the same cards in the same order. *)
Theorem export_then_import_restores
    (H0 : list JValue) (isoNow : string) (s : Session) :
  Forall (fun c => ToBoolean (field c "term") && ToBoolean (field c "meaning") = true) H0 ->
  forallb distinct_keys H0 = true ->
  cards (app s) = [] ->
  exists name file s',
    handleExport H0 isoNow = [download name file] /\
    step s (ImportFile (Some file)) = Ok s' /\
    cards (app s') = H0.
Proof.
  intros Hshape Hkeys Hempty.
  apply export_import_on_codec; [exact Hshape| |exact Hempty].
  apply (parse_stringify_indent (JArr H0)). exact Hkeys.
Qed.

Lemma export_then_import_restores_witness :
  let H0 := [card_information; card_bribe] in
  Forall (fun c => ToBoolean (field c "term") && ToBoolean (field c "meaning") = true) H0 /\
  forallb distinct_keys H0 = true /\
  cards (app empty_session) = [] /\
  exists name file s',
    handleExport H0 "2026-11-03T09:00:00.000Z" = [download name file] /\
    step empty_session (ImportFile (Some file)) = Ok s' /\
    cards (app s') = H0.
Proof.
  intros H0.
  assert (Hshape : Forall (fun c => ToBoolean (field c "term")
                                    && ToBoolean (field c "meaning") = true) H0).
  { repeat constructor. }
  assert (Hkeys : forallb distinct_keys H0 = true) by (vm_compute; reflexivity).
  split; [exact Hshape|]. split; [exact Hkeys|]. split; [reflexivity|].
  exact (export_then_import_restores H0 "2026-11-03T09:00:00.000Z" empty_session
           Hshape Hkeys eq_refl).
Defined.

End Runs.

(** * The handlers and effects, one by one *)

Section Handlers.
Context `{Platform}.

(** *** Strings *)



Lemma substring_prefix (a b : string) :
  String.substring 0 (String.length a) (a +:+ b) = a.
Proof.
  induction a as [|c a IH]; simpl.
  - destruct b; reflexivity.
  - change (String c a +:+ b) with (String c (a +:+ b)). simpl. rewrite IH. reflexivity.
Qed.

(** *** Analyze *)

Lemma analyze_step
    (s : Session) (term : string) (entry : list (string * JValue))
    (uuid : string) (now : Z) :
  apiKey (app s) <> "" ->
  exists s',
    step s (Analyze term (Resolved entry) uuid now) = Ok s' /\
    cards (app s') = newCard entry uuid now :: cards (app s) /\
    apiKey (app s') = apiKey (app s).
Proof.
  intros Hkey. unfold step, run, rendered, returned.
  cbn [handle app env]. unfold handleAnalyze.
  destruct (apiKey (app s)) as [|c k] eqn:Hk; [congruence|].
  cbn -[newCard]. eexists. split; [reflexivity|]. cbn -[newCard].
  split; [reflexivity|]. exact Hk.
Qed.

(** X1: with a credential, an analyze whose request resolves puts the
    new card at the head of the History, has called the service once with
    the term and the credential, leaves no error and no loading flag, and
    the History is saved. *)
Theorem analyze_success_prepends_and_saves
    (s : Session) (term : string) (entry : list (string * JValue))
    (uuid : string) (now : Z) :
  apiKey (app s) <> "" ->
  exists s',
    step s (Analyze term (Resolved entry) uuid now) = Ok s' /\
    cards (app s') = newCard entry uuid now :: cards (app s) /\
    requests (env s') = requests (env s) ++ [(term, apiKey (app s))] /\
    error (app s') = None /\
    loading (app s') = false /\
    apiKey (app s') = apiKey (app s) /\
    isSettingsOpen (app s') = isSettingsOpen (app s) /\
    alerts (env s') = alerts (env s) /\
    persisted s'.
Proof.
  intros Hkey. unfold step, run, rendered, returned, persisted.
  cbn [handle app env]. unfold handleAnalyze.
  destruct (apiKey (app s)) as [|c k] eqn:Hk; [congruence|].
  cbn -[newCard]. eexists. split; [reflexivity|]. cbn -[newCard].
  repeat split; try reflexivity; try exact Hk. apply lookup_insert_eq.
Qed.


Lemma keys_set_property (k : string) (v : JValue) (fields : list (string * JValue)) :
  map fst (set_property k v fields)
  = if bool_decide (k ∈ map fst fields) then map fst fields else map fst fields ++ [k].
Proof.
  induction fields as [|[k' v'] rest IH]; [reflexivity|]. cbn [set_property map fst].
  destruct (String.eqb k k') eqn:Hk.
  - apply String.eqb_eq in Hk as <-. rewrite bool_decide_eq_true_2 by left. reflexivity.
  - apply String.eqb_neq in Hk. cbn [map fst]. rewrite IH.
    destruct (bool_decide (k ∈ map fst rest)) eqn:Hin.
    + apply bool_decide_eq_true in Hin.
      rewrite bool_decide_eq_true_2 by (right; exact Hin). reflexivity.
    + apply bool_decide_eq_false in Hin.
      rewrite bool_decide_eq_false_2; [reflexivity|].
      intros Hc. apply elem_of_cons in Hc as [Hc|Hc]; [congruence|contradiction].
Qed.

Lemma NoDup_keys_set_property (k : string) (v : JValue)
    (fields : list (string * JValue)) :
  NoDup (map fst fields) -> NoDup (map fst (set_property k v fields)).
Proof.
  intros Hnd. rewrite keys_set_property.
  destruct (bool_decide (k ∈ map fst fields)) eqn:Hin; [exact Hnd|].
  apply bool_decide_eq_false in Hin.
  apply NoDup_app. split; [exact Hnd|]. split.
  - intros x Hx Hk. apply list_elem_of_singleton in Hk as ->. contradiction.
  - apply NoDup_singleton.
Qed.

(** X3: the new card carries the generated id and the time of its
    creation whatever the service returned under these two keys, shows
    every other field of the entry as the service returned it, and has
    each key once when the entry has. *)
Theorem newCard_overrides_id_and_time
    (entry : list (string * JValue)) (uuid : string) (now : Z) :
  field (newCard entry uuid now) "id" = Some (JStr uuid) /\
  field (newCard entry uuid now) "createdAt" = Some (JNum now) /\
  (forall k, k <> "id" -> k <> "createdAt" ->
             field (newCard entry uuid now) k = own_property k entry) /\
  (NoDup (map fst entry) ->
   exists fields, newCard entry uuid now = JObj fields /\ NoDup (map fst fields)).
Proof.
  split; [apply newCard_id|]. split; [apply own_property_set_same|]. split.
  - intros k Hid Htime. unfold newCard, field.
    rewrite !own_property_set_other by assumption. reflexivity.
  - intros Hnd. eexists. split; [reflexivity|].
    apply NoDup_keys_set_property, NoDup_keys_set_property, Hnd.
Qed.

(** *** The credential *)

(** X4: saving a credential sets it for the session and stores it, so
    that the next session starts with it whatever the environment holds;
    saving the empty string removes the stored credential, so that the
    next session falls back to the environment.  Neither touches the
    History or its stored copy. *)
Theorem saved_credential_round_trip
    (s : Session) (key : string) (env_API_KEY : option string) :
  exists s',
    step s (SaveApiKey key) = Ok s' /\
    apiKey (app s') = key /\
    cards (app s') = cards (app s) /\
    localStorage (env s') !! STORAGE_KEY = localStorage (env s) !! STORAGE_KEY /\
    localStorage (env s') !! API_KEY_STORAGE_KEY
    = match key with EmptyString => None | String _ _ => Some key end /\
    initial_apiKey (localStorage (env s')) env_API_KEY
    = match key with
      | EmptyString => default "" env_API_KEY
      | String _ _ => key
      end.
Proof.
  unfold step, run, rendered, returned. cbn [handle app env]. unfold handleSaveApiKey.
  destruct key as [|c k]; cbn; (eexists; split; [reflexivity|]); cbn;
    unfold initial_apiKey.
  - rewrite lookup_delete_eq, lookup_delete_ne by discriminate.
    repeat split. destruct env_API_KEY as [[|a e]|]; reflexivity.
  - rewrite lookup_insert_eq, lookup_insert_ne by discriminate.
    repeat split.
Qed.

(** *** Delete *)

Lemma filter_filter_same {A} (q : A -> bool) (xs : list A) :
  List.filter q (List.filter q xs) = List.filter q xs.
Proof.
  induction xs as [|x xs IH]; simpl; [reflexivity|].
  destruct (q x) eqn:Hq; simpl; rewrite ?Hq, IH; reflexivity.
Qed.

Lemma filter_not_null (q : JValue -> bool) (xs : list JValue) :
  Forall (fun c => c <> JNull) xs -> Forall (fun c => c <> JNull) (List.filter q xs).
Proof.
  induction 1 as [|x xs Hx _ IH]; simpl; [constructor|].
  destruct (q x); [constructor|]; assumption.
Qed.

(** X5: a confirmed delete done twice leaves the History as the first
    one left it, and never makes it longer; a declined confirmation
    changes nothing at all. *)
Theorem delete_twice_same_as_once (s : Session) (id : string) :
  Forall (fun c => c <> JNull) (cards (app s)) ->
  (exists s1 s2,
     step s (Delete id true) = Ok s1 /\
     step s1 (Delete id true) = Ok s2 /\
     cards (app s2) = cards (app s1) /\
     length (cards (app s1)) <= length (cards (app s))) /\
  step s (Delete id false) = Ok s.
Proof.
  intros Hnn. split.
  - unfold step, run, rendered, returned. cbn [handle handleDelete app env commit apply_update].
    rewrite (remove_filter id _ Hnn). cbn -[remove].
    do 2 eexists. split; [reflexivity|]. cbn -[remove].
    rewrite (remove_filter id _ (filter_not_null _ _ Hnn)). cbn -[remove].
    split; [reflexivity|]. cbn -[remove]. split.
    + apply filter_filter_same.
    + apply filter_length_le.
  - unfold step, run, rendered, returned. cbn. destruct s as [[] []]. reflexivity.
Qed.

(** X6: deleting the card that an analyze has just created, by its
    generated id, gives back the History from before the analyze, as long
    as no other card has that id. *)
Theorem delete_undoes_analyze
    (s : Session) (term : string) (entry : list (string * JValue))
    (uuid : string) (now : Z) :
  apiKey (app s) <> "" ->
  Forall (fun c => c <> JNull) (cards (app s)) ->
  Some (JStr uuid) ∉ ids (cards (app s)) ->
  exists s1 s2,
    step s (Analyze term (Resolved entry) uuid now) = Ok s1 /\
    step s1 (Delete uuid true) = Ok s2 /\
    cards (app s2) = cards (app s).
Proof.
  intros Hkey Hnn Hfresh. unfold step, run, rendered, returned.
  cbn [handle app env]. unfold handleAnalyze.
  destruct (apiKey (app s)) as [|c k] eqn:Hk; [congruence|].
  cbn -[newCard]. do 2 eexists. split; [reflexivity|]. cbn -[newCard remove].
  assert (Hnn' : Forall (fun c => c <> JNull) (newCard entry uuid now :: cards (app s))).
  { constructor; [discriminate|exact Hnn]. }
  rewrite (remove_filter uuid _ Hnn'). cbn -[newCard].
  split; [reflexivity|]. cbn -[newCard].
  rewrite newCard_id. cbn. rewrite String.eqb_refl. cbn.
  clear Hnn' Hnn. unfold ids in Hfresh.
  induction (cards (app s)) as [|c0 cs IH]; [reflexivity|]. cbn in *.
  apply not_elem_of_cons in Hfresh as [Hne Hrest].
  assert (Hc : strict_neq_string (field c0 "id") uuid = true).
  { apply strict_neq_string_spec. congruence. }
  rewrite Hc. f_equal. apply IH, Hrest.
Qed.

(** *** Export *)

(** X7: export changes neither the state nor the storage and raises no
    alert; it downloads one file, named after the calendar date at the
    head of the ISO time, whose content is the indented serialization of
    the History. *)
Theorem export_downloads_dated_backup (s : Session) (date rest : string) :
  String.length date = 10 ->
  exists s',
    step s (Export (date +:+ rest)) = Ok s' /\
    app s' = app s /\
    localStorage (env s') = localStorage (env s) /\
    alerts (env s') = alerts (env s) /\
    requests (env s') = requests (env s) /\
    downloads (env s')
    = downloads (env s)
      ++ [("linguist_corpus_backup_" +:+ date +:+ ".json",
           JSON_stringify_indent2 (JArr (cards (app s))))].
Proof.
  intros Hlen. unfold step, run, rendered, returned.
  cbn [handle app env]. unfold handleExport.
  rewrite <- Hlen, substring_prefix. cbn.
  eexists. split; [reflexivity|]. cbn.
  repeat split; try reflexivity; destruct (app s); reflexivity.
Qed.

(** *** Import *)

(** What [onload] comes to, for the History [seen] that its handler
    closed over. *)
Lemma onload_outcome (seen : list JValue) (text : string) :
  (existsb sets_cards (onload seen text) = false /\
   (onload seen text = [] \/ exists msg, onload seen text = [alert msg])) \/
  exists C newCards,
    JSON_parse text = Ok (JArr C) /\
    filterM (is_new_card (ids seen)) C = Ok newCards /\
    newCards <> [] /\
    onload seen text
    = [setCards (fun prev => Ok (newCards ++ prev));
       alert (Msg.imported (length newCards))].
Proof.
  unfold onload.
  destruct (JSON_parse text) as [v|e]; [|left; split; [reflexivity|eauto]].
  change (Ok v ≫= merge_imported seen) with (merge_imported seen v).
  destruct v as [| | | |C|]; try (left; split; [reflexivity|left; reflexivity]).
  unfold merge_imported.
  destruct (mapM_js (fun c => get_prop c "id") seen) as [found|e] eqn:Hfound;
    [|left; split; [reflexivity|eauto]].
  apply existing_ids_inv in Hfound. subst found.
  change (Ok (ids seen) ≫= ?f) with (f (ids seen)). cbv beta.
  destruct (filterM (is_new_card (ids seen)) C) as [newCards|e] eqn:Hnew;
    [|left; split; [reflexivity|eauto]].
  change (Ok newCards ≫= ?f) with (f newCards). cbv beta.
  destruct newCards as [|c0 rest].
  - left. split; [reflexivity|eauto].
  - right. exists C, (c0 :: rest). repeat split; [exact Hnew|discriminate].
Qed.

Lemma run_without_setCards (cmds : list Cmd) (s : Session) :
  existsb sets_cards cmds = false ->
  (cmds = [] \/ exists msg, cmds = [alert msg]) ->
  exists s', run cmds s = Ok s' /\ app s' = app s /\
             localStorage (env s') = localStorage (env s) /\
             requests (env s') = requests (env s) /\
             console (env s') = console (env s).
Proof.
  intros _ [->|[msg ->]]; unfold run, rendered, returned; cbn;
    (eexists; split; [reflexivity|]); cbn; repeat split; destruct (app s); reflexivity.
Qed.

Lemma accepted_cards (found : list (option JValue)) (C newCards : list JValue) :
  filterM (is_new_card found) C = Ok newCards ->
  Forall (fun c => In c C /\ c <> JNull /\
                   ToBoolean (field c "term") = true /\
                   ToBoolean (field c "meaning") = true /\
                   Set_has found (field c "id") = false) newCards.
Proof.
  intros Hnew. destruct (filterM_inv _ _ _ Hnew) as (q & Hq & ->).
  rewrite List.Forall_forall in *. intros c Hc.
  apply filter_In in Hc as [Hin Hqc]. specialize (Hq c Hin).
  pose proof (is_new_card_returns _ _ _ Hq) as Hnn.
  rewrite is_new_card_defined in Hq by exact Hnn. injection Hq as Hq.
  rewrite Hqc in Hq. apply andb_true_iff in Hq as [Hq Hid].
  apply andb_true_iff in Hq as [Ht Hm]. apply negb_true_iff in Hid.
  repeat split; assumption.
Qed.

(** What an import does, whatever the file. *)
Lemma import_step_outcome (s : Session) (file : option string) :
  exists s' added,
    step s (ImportFile file) = Ok s' /\
    cards (app s') = added ++ cards (app s) /\
    Forall (fun c => c <> JNull /\
                     ToBoolean (field c "term") = true /\
                     ToBoolean (field c "meaning") = true /\
                     Set_has (ids (cards (app s))) (field c "id") = false) added /\
    (added <> [] ->
     alerts (env s') = alerts (env s) ++ [Msg.imported (length added)]) /\
    apiKey (app s') = apiKey (app s) /\
    requests (env s') = requests (env s).
Proof.
  unfold step. cbn [handle]. destruct file as [text|]; cbn [handleImportFile].
  - destruct (onload_outcome (cards (app s)) text)
      as [[Hno Hshape]|(C & newCards & Hparse & Hnew & Hne & ->)].
    + destruct (run_without_setCards _ s Hno Hshape) as (s' & Hrun & Happ & _ & Hreq & _).
      exists s', []. split; [exact Hrun|]. rewrite Happ.
      repeat split; [constructor|congruence|exact Hreq].
    + unfold run, rendered, returned. cbn -[Msg.imported].
      exists (mkSession
                (mkAppState (newCards ++ cards (app s)) (loading (app s)) (error (app s))
                   (apiKey (app s)) (isSettingsOpen (app s)))
                (mkEnv (<[STORAGE_KEY := JSON_stringify (JArr (newCards ++ cards (app s)))]>
                          (localStorage (env s)))
                   (alerts (env s) ++ [Msg.imported (length newCards)])
                   (console (env s)) (requests (env s)) (downloads (env s)))), newCards.
      split; [reflexivity|]. cbn -[Msg.imported]. split; [reflexivity|]. split.
      * eapply Forall_impl; [apply (accepted_cards _ _ _ Hnew)|]. cbn. tauto.
      * repeat split.
  - unfold run, rendered, returned. cbn. exists s, []. destruct s as [[] []].
    repeat split; try reflexivity; [constructor|congruence].
Qed.

(** X8: whatever file is chosen, and whether one is chosen at all, the
    import ends without an uncaught error and keeps every card of the
    History in its place: it only puts cards in front.  Each card it adds
    is no [null], has a truthy [term] and [meaning] and an [id] that was
    not found among the ids of the History; when it adds some, it reports
    how many. *)
Theorem import_only_adds_in_front (s : Session) (file : option string) :
  exists s' added,
    step s (ImportFile file) = Ok s' /\
    cards (app s') = added ++ cards (app s) /\
    Forall (fun c => c <> JNull /\
                     ToBoolean (field c "term") = true /\
                     ToBoolean (field c "meaning") = true /\
                     Set_has (ids (cards (app s))) (field c "id") = false) added /\
    (added <> [] ->
     alerts (env s') = alerts (env s) ++ [Msg.imported (length added)]) /\
    apiKey (app s') = apiKey (app s) /\
    requests (env s') = requests (env s).
Proof. apply import_step_outcome. Qed.

(** X9: the file is read after the handler has returned.  The cards the
    import takes are chosen against the History [seen] that the handler
    closed over when the file was chosen, and they are put in front of
    the History as it is when the file has been read. *)
Theorem import_checks_ids_seen_at_selection
    (seen : list JValue) (s : Session) (text : string) (C : list JValue) :
  JSON_parse text = Ok (JArr C) ->
  Forall (fun c => c <> JNull) seen ->
  Forall (fun c => c <> JNull) C ->
  exists s',
    run (handleImportFile seen (Some text)) s = Ok s' /\
    cards (app s') = List.filter (accepts seen) C ++ cards (app s).
Proof.
  intros Hparse Hseen HC. cbn [handleImportFile]. unfold onload. rewrite Hparse.
  change (Ok ?x ≫= ?f) with (f x).
  rewrite (merge_imported_accepts _ _ Hseen HC). cbv zeta.
  unfold run, rendered, returned.
  destruct (List.filter (accepts seen) C) as [|c0 rest]; cbn -[Msg.imported];
    (eexists; split; [reflexivity|]); reflexivity.
Qed.

Lemma filterM_null (found : list (option JValue)) (C : list JValue) :
  In JNull C -> exists e, filterM (is_new_card found) C = Throw e.
Proof. intros Hin. eapply filterM_throws; [exact Hin|reflexivity]. Qed.

(** X10: a [null] anywhere in the array of the file makes the import
    take nothing, whatever else the file holds: the state and the storage
    are as before, and the failure to read the file is reported. *)
Theorem import_aborts_on_null (s : Session) (text : string) (C : list JValue) :
  JSON_parse text = Ok (JArr C) ->
  In JNull C ->
  exists s',
    step s (ImportFile (Some text)) = Ok s' /\
    app s' = app s /\
    localStorage (env s') = localStorage (env s) /\
    alerts (env s') = alerts (env s) ++ [Msg.import_failed].
Proof.
  intros Hparse Hnull.
  assert (Hcmds : onload (cards (app s)) text = [alert Msg.import_failed]).
  { unfold onload. rewrite Hparse. change (Ok ?x ≫= ?f) with (f x).
    unfold merge_imported.
    destruct (mapM_js (fun c => get_prop c "id") (cards (app s))) as [found|e];
      [|reflexivity].
    change (Ok found ≫= ?f) with (f found). cbv beta.
    destruct (filterM_null found C Hnull) as [e ->]. reflexivity. }
  unfold step, run, rendered, returned. cbn [handle handleImportFile]. rewrite Hcmds.
  cbn. eexists. split; [reflexivity|]. cbn.
  repeat split; try reflexivity; destruct (app s); reflexivity.
Qed.

(** *** Mount *)


(** X12: when nothing usable is stored under the history key (nothing,
    the empty string, or a text that does not parse), the component
    mounts with an empty History and writes the serialization of the
    empty History under the key: a stored text that does not parse is
    overwritten. *)
Theorem mount_resets_unusable_history
    (storage : gmap string string) (env_API_KEY : option string) :
  (storage !! STORAGE_KEY = None \/
   storage !! STORAGE_KEY = Some "" \/
   exists saved e, storage !! STORAGE_KEY = Some saved /\ JSON_parse saved = Throw e) ->
  exists s,
    mount storage env_API_KEY = Ok s /\
    cards (app s) = [] /\
    localStorage (env s) = <[STORAGE_KEY := JSON_stringify (JArr [])]> storage.
Proof.
  intros Hcase. unfold mount, rendered, returned, useEffect_load.
  destruct Hcase as [->|[->|(saved & e & -> & Hparse)]].
  - cbn. eexists. split; [reflexivity|]. split; reflexivity.
  - cbn. eexists. split; [reflexivity|]. split; reflexivity.
  - destruct saved as [|c rest].
    + cbn. eexists. split; [reflexivity|]. split; reflexivity.
    + rewrite Hparse. cbn. eexists. split; [reflexivity|]. split; reflexivity.
Qed.

(** *** Whole sessions *)

Lemma step_persisted (s s' : Session) (ev : Event) :
  persisted s -> step s ev = Ok s' -> persisted s'.
Proof.
  intros Hsaved Hstep. unfold step, run, rendered in Hstep.
  destruct (commit (handle (app s) ev) (app (returned (handle (app s) ev) s)))
    as [st|e] eqn:Hcommit; cbn in Hstep; [|discriminate].
  destruct (existsb sets_cards (handle (app s) ev)) eqn:Hsets;
    injection Hstep as <-; unfold persisted in *; cbn [app env].
  - apply lookup_insert_eq.
  - rewrite (commit_keeps_cards _ _ _ Hsets Hcommit). unfold returned. cbn [app env].
    rewrite perform_all_other_key by apply handle_no_history_write. exact Hsaved.
Qed.

(** X13: from the mount on, after every event of every sequence of
    events, the value stored under the history key is the serialization
    of the History in memory. *)
Theorem history_saved_along_session
    (storage : gmap string string) (env_API_KEY : option string)
    (evs : list Event) (s0 s : Session) :
  mount storage env_API_KEY = Ok s0 ->
  steps s0 evs = Ok s ->
  persisted s.
Proof.
  intros Hmount. apply mount_persisted in Hmount. revert s0 Hmount.
  induction evs as [|ev evs IH]; intros s0 Hsaved Hsteps; cbn in Hsteps.
  - injection Hsteps as <-. exact Hsaved.
  - destruct (step s0 ev) as [s1|e] eqn:Hstep; cbn in Hsteps; [|discriminate].
    eapply IH; [|exact Hsteps]. eapply step_persisted; eassumption.
Qed.



Lemma commit_keeps_apiKey (cmds : list Cmd) (st st' : AppState) :
  Forall (fun c => match c with setApiKey _ => False | _ => True end) cmds ->
  commit cmds st = Ok st' -> apiKey st' = apiKey st.
Proof.
  intros Hno. revert st. induction Hno as [|c cmds Hc _ IH]; cbn; intros st Hcommit.
  - congruence.
  - destruct c; try contradiction; cbn in Hcommit;
      try (apply IH in Hcommit; exact Hcommit).
    + destruct (updater (cards st)) as [cs|e]; cbn in Hcommit; [|discriminate].
      apply IH in Hcommit. exact Hcommit.
    + destruct v; cbn in Hcommit; try discriminate. apply IH in Hcommit. exact Hcommit.
Qed.

Lemma handle_leaves_credential (st : AppState) (ev : Event) :
  (forall key, ev <> SaveApiKey key) ->
  Forall (fun c => match c with setApiKey _ => False | _ => True end) (handle st ev) /\
  existsb (is_storage_write API_KEY_STORAGE_KEY) (handle st ev) = false.
Proof.
  intros Hev. destruct ev as [term0 settled uuid now|id confirmed|isoNow|file|key]; cbn.
  - unfold handleAnalyze. destruct (apiKey st); [split; [repeat constructor|reflexivity]|].
    destruct settled as [entry|[[|c m]|]]; try (split; [repeat constructor|reflexivity]).
    destruct (includes (String c m) "API Key"); split; try reflexivity; repeat constructor.
  - destruct confirmed; split; try reflexivity; repeat constructor.
  - split; [repeat constructor|reflexivity].
  - destruct file as [text|]; [|split; [constructor|reflexivity]]. cbn.
    destruct (onload_shape (cards st) text) as [->|[[msg ->]|[newCards ->]]];
      split; try reflexivity; repeat constructor.
  - exfalso. eapply Hev. reflexivity.
Qed.

(** X15: only saving through the settings changes the credential: every
    other event leaves the credential of the session and the stored
    credential as they are. *)
Theorem credential_changed_by_settings_only (s s' : Session) (ev : Event) :
  step s ev = Ok s' ->
  (forall key, ev <> SaveApiKey key) ->
  apiKey (app s') = apiKey (app s) /\
  localStorage (env s') !! API_KEY_STORAGE_KEY
  = localStorage (env s) !! API_KEY_STORAGE_KEY.
Proof.
  intros Hstep Hev. destruct (handle_leaves_credential (app s) ev Hev) as [Hset Hwrite].
  unfold step, run, rendered in Hstep.
  destruct (commit (handle (app s) ev) (app (returned (handle (app s) ev) s)))
    as [st|e] eqn:Hcommit; cbn in Hstep; [|discriminate].
  injection Hstep as <-. cbn [app env]. split.
  - apply (commit_keeps_apiKey _ _ _ Hset Hcommit).
  - destruct (existsb sets_cards (handle (app s) ev)); cbn.
    + rewrite lookup_insert_ne by discriminate.
      apply perform_all_other_key, Hwrite.
    + apply perform_all_other_key, Hwrite.
Qed.

Lemma requests_perform_all (cmds : list Cmd) (env : Env) :
  requests (perform_all cmds env)
  = requests env
    ++ omap (fun c => match c with
                      | call_generateCorpusEntry term key => Some (term, key)
                      | _ => None
                      end) cmds.
Proof.
  unfold perform_all. revert env. induction cmds as [|c cmds IH]; intros env; cbn.
  - rewrite app_nil_r. reflexivity.
  - rewrite IH. destruct c; cbn; try reflexivity. rewrite <- app_assoc. reflexivity.
Qed.

(** X16: the service is called by an analyze with a credential, once,
    with the term and the credential of the session, and by nothing
    else. *)
Theorem one_request_per_analyze (s s' : Session) (ev : Event) :
  step s ev = Ok s' ->
  requests (env s')
  = requests (env s)
    ++ match ev with
       | Analyze term _ _ _ =>
           match apiKey (app s) with
           | EmptyString => []
           | String _ _ => [(term, apiKey (app s))]
           end
       | _ => []
       end.
Proof.
  intros Hstep. unfold step, run, rendered in Hstep.
  destruct (commit (handle (app s) ev) (app (returned (handle (app s) ev) s)))
    as [st|e] eqn:Hcommit; cbn in Hstep; [|discriminate].
  assert (Hreq : requests (env s') = requests (perform_all (handle (app s) ev) (env s))).
  { injection Hstep as <-. cbn [env]. unfold returned. cbn [env].
    destruct (existsb sets_cards (handle (app s) ev)); reflexivity. }
  rewrite Hreq, requests_perform_all. f_equal. clear.
  destruct ev as [term0 settled uuid now|id confirmed|isoNow|file|key]; cbn.
  - unfold handleAnalyze. destruct (apiKey (app s)); [reflexivity|].
    destruct settled as [entry|[[|c m]|]]; try reflexivity.
    destruct (includes (String c m) "API Key"); reflexivity.
  - destruct confirmed; reflexivity.
  - reflexivity.
  - destruct file as [text|]; [|reflexivity]. cbn.
    destruct (onload_shape (cards (app s)) text) as [->|[[msg ->]|[newCards ->]]];
      reflexivity.
  - destruct key; reflexivity.
Qed.

(** *** The request in flight *)

(** X17: an analyze with a credential runs in two halves.  The first
    raises the loading flag, clears the error and calls the service,
    leaving the History alone.  When the request resolves, after any
    events in between, the second half puts the new card in front of the
    History as it then is, drops the loading flag and the History is
    saved.  With nothing in between, the two halves are the analyze. *)
Theorem settled_card_goes_on_latest_history (s : Session) (term : string) :
  apiKey (app s) <> "" ->
  exists s1,
    run (handleAnalyze_start (apiKey (app s)) term) s = Ok s1 /\
    loading (app s1) = true /\
    error (app s1) = None /\
    cards (app s1) = cards (app s) /\
    localStorage (env s1) = localStorage (env s) /\
    requests (env s1) = requests (env s) ++ [(term, apiKey (app s))] /\
    (forall evs s2 entry uuid now,
       steps s1 evs = Ok s2 ->
       exists s3,
         run (handleAnalyze_settle (Resolved entry) uuid now) s2 = Ok s3 /\
         cards (app s3) = newCard entry uuid now :: cards (app s2) /\
         loading (app s3) = false /\
         persisted s3) /\
    (forall settled uuid now,
       step s (Analyze term settled uuid now)
       = run (handleAnalyze_settle settled uuid now) s1).
Proof.
  intros Hkey. destruct (apiKey (app s)) as [|c k] eqn:Hk; [congruence|].
  eexists. split; [reflexivity|]. cbn. do 5 (split; [reflexivity|]). split.
  - intros evs s2 entry uuid now _.
    eexists. split; [reflexivity|]. cbn -[newCard]. repeat split.
    unfold persisted. cbn -[newCard]. apply lookup_insert_eq.
  - intros settled uuid now. unfold step, run, rendered, returned.
    cbn [handle app env]. unfold handleAnalyze. rewrite Hk.
    destruct settled as [entry|[[|a m]|]];
      cbn -[newCard includes]; rewrite ?Hk; reflexivity.
Qed.

(** *** Order *)

(** X18: the History is newest first: after a run of analyses that all
    resolve, the new cards stand in front of the earlier History in the
    reverse order of their creation. *)
Theorem analyses_stack_newest_first
    (s : Session) (runs : list (string * list (string * JValue) * string * Z)) :
  apiKey (app s) <> "" ->
  exists s',
    steps s (map (fun r => Analyze r.1.1.1 (Resolved r.1.1.2) r.1.2 r.2) runs) = Ok s' /\
    cards (app s')
    = rev (map (fun r => newCard r.1.1.2 r.1.2 r.2) runs) ++ cards (app s).
Proof.
  revert s. induction runs as [|[[[term0 entry] uuid] now] runs IH]; intros s Hkey.
  - exists s. split; reflexivity.
  - cbn [map steps fst snd].
    destruct (analyze_step s term0 entry uuid now Hkey) as (s1 & -> & Hcards & Hkey1).
    cbn [mbind js_bind]. 
    destruct (IH s1) as (s' & Hsteps & Hcards'); [congruence|].
    exists s'. split; [exact Hsteps|]. rewrite Hcards', Hcards.
    cbn [rev]. rewrite <- app_assoc. reflexivity.
Qed.

(** *** Cards of the declared type *)

Lemma sameValueZero_string (id : string) (y : option JValue) :
  sameValueZero (Some (JStr id)) y = true <-> y = Some (JStr id).
Proof.
  destruct y as [[| | |s| |]|]; cbn; try (split; [discriminate|discriminate]).
  rewrite String.eqb_eq. split; [intros ->; reflexivity|congruence].
Qed.

Lemma Set_has_string (found : list (option JValue)) (id : string) :
  Set_has found (Some (JStr id)) = true <-> Some (JStr id) ∈ found.
Proof.
  unfold Set_has. rewrite existsb_exists. split.
  - intros (y & Hin & Hy). apply sameValueZero_string in Hy as ->.
    apply list_elem_of_In, Hin.
  - intros Hin. exists (Some (JStr id)). split; [apply list_elem_of_In, Hin|].
    apply sameValueZero_string. reflexivity.
Qed.


Lemma distinct_keys_strings (xs : list string) : distinct_keys (strings_value xs) = true.
Proof. cbn. induction xs; [reflexivity|exact IHxs]. Qed.

Lemma distinct_keys_card_value (e : CorpusEntry) (id : string) (createdAt : Z) :
  distinct_keys (card_value e id createdAt) = true.
Proof.
  unfold card_value, newCard, entry_fields.
  cbn -[strings_value distinct_keys bool_decide].
  cbn [distinct_keys map fst snd forallb].
  rewrite !distinct_keys_strings. cbn [andb].
  rewrite andb_true_r. apply andb_true_iff. split.
  - apply bool_decide_eq_true. vm_compute. repeat constructor;
      rewrite ?list_elem_of_In; cbn; intuition discriminate.
  - induction (paraphrases e) as [|p ps IH]; [reflexivity|].
    cbn [map forallb]. rewrite IH, andb_true_r.
    unfold paraphrase_value. cbn [distinct_keys map fst snd forallb].
    rewrite distinct_keys_strings. cbn [andb]. rewrite andb_true_r.
    apply bool_decide_eq_true. repeat constructor;
      rewrite ?list_elem_of_In; cbn; intuition discriminate.
Qed.

(** X19: for a card of the declared type [CorpusCard], the check of the
    import never throws, and passes exactly when the term and the meaning
    are not empty and no card of the History has the id of the card. *)
Theorem typed_card_import_check
    (existing : list JValue) (e : CorpusEntry) (id : string) (createdAt : Z) :
  exists b,
    is_new_card (ids existing) (card_value e id createdAt) = Ok b /\
    (b = true <->
     term e <> "" /\ meaning e <> "" /\ Some (JStr id) ∉ ids existing).
Proof.
  eexists. split; [apply is_new_card_defined; discriminate|].
  unfold card_value. rewrite newCard_id.
  change (field (newCard (entry_fields e) id createdAt) "term") with (Some (JStr (term e))).
  change (field (newCard (entry_fields e) id createdAt) "meaning")
    with (Some (JStr (meaning e))).
  cbn [ToBoolean]. rewrite !andb_true_iff, !negb_true_iff, !String.eqb_neq.
  rewrite <- Set_has_string, not_true_iff_false. tauto.
Qed.

End Handlers.

(** ** The compact serialization is read back too *)

Section CompactCodec.
Import RefJSON.

Lemma delimited_bracket (X : string) : delimited (String "]" X).
Proof. split; reflexivity. Qed.

Lemma delimited_brace (X : string) : delimited (String "}" X).
Proof. split; reflexivity. Qed.

Lemma stringify_head (v : JValue) (rest : string) :
  exists c r, stringify v +:+ rest = String c r /\ opening c = true.
Proof.
  destruct v as [|b|n|s|elems|fields].
  - exists "n"%char, ("ull" +:+ rest). split; reflexivity.
  - destruct b.
    + exists "t"%char, ("rue" +:+ rest). split; reflexivity.
    + exists "f"%char, ("alse" +:+ rest). split; reflexivity.
  - destruct (pretty_head n rest) as (c & r & Hhead & Hc).
    exists c, r. split; [exact Hhead|]. apply starts_number_opening, Hc.
  - exists dquote, (escape s +:+ String dquote rest). split; [|reflexivity].
    apply quote_append.
  - eexists "["%char, _. split; [|reflexivity].
    cbn [stringify]. rewrite !append_assoc. reflexivity.
  - eexists "{"%char, _. split; [|reflexivity].
    cbn [stringify]. rewrite !append_assoc. reflexivity.
Qed.

Section CompactLoops.
Variable fuel : nat.
Hypothesis IH : forall f, f < fuel ->
  forall v rest, JValue_size v <= f -> distinct_keys v = true -> delimited rest ->
  parse_value f (stringify v +:+ rest) = Some (v, rest).

Lemma compact_elements (l : list JValue) :
  forall x f rest,
    f < fuel -> size_list (x :: l) <= f -> forallb distinct_keys (x :: l) = true ->
    parse_elements f (join "," (map stringify (x :: l)) +:+ String "]" rest)
    = Some (x :: l, rest).
Proof.
  induction l as [|y l IHl]; intros x f rest Hf Hsize Hwf;
    (destruct f as [|f]; [unfold size_list in Hsize; simpl in Hsize; lia|]);
    assert (Hx : JValue_size x <= f) by (unfold size_list in Hsize; simpl in Hsize; lia);
    assert (Hwx : distinct_keys x = true)
      by (simpl in Hwf; apply andb_true_iff in Hwf; tauto).
  - cbn [map]. rewrite join_one.
    apply (parse_elements_last f _ "").
    + apply IH; [lia|exact Hx|exact Hwx|apply delimited_bracket].
    + reflexivity.
  - cbn [map]. rewrite join_more. rewrite !append_assoc.
    erewrite (parse_elements_more f _ _ x).
    2:{ apply IH; auto using delimited_comma. lia. }
    pose proof (IHl y f rest) as IHy.
    cbn [map] in IHy. rewrite IHy; [reflexivity| lia | | ].
    + unfold size_list in *. simpl in *. lia.
    + simpl in Hwf. apply andb_true_iff in Hwf. tauto.
Qed.

Lemma compact_member_text (k : string) (X : string) :
  quote k +:+ ":" +:+ X
  = String dquote (escape k +:+ String dquote (String ":" X)).
Proof. rewrite quote_append. reflexivity. Qed.

Lemma compact_members (l : list (string * JValue)) :
  forall kv f rest,
    f < fuel -> size_members (kv :: l) <= f ->
    forallb (fun kv => distinct_keys (snd kv)) (kv :: l) = true ->
    parse_members f
      (join "," (map (fun kv => quote (fst kv) +:+ ":" +:+ stringify (snd kv)) (kv :: l))
       +:+ String "}" rest)
    = Some (kv :: l, rest).
Proof.
  induction l as [|y l IHl]; intros [k x] f rest Hf Hsize Hwf;
    (destruct f as [|f]; [unfold size_members in Hsize; simpl in Hsize; lia|]);
    assert (Hx : JValue_size x <= f)
      by (unfold size_members in Hsize; simpl in Hsize; lia);
    assert (Hwx : distinct_keys x = true)
      by (simpl in Hwf; apply andb_true_iff in Hwf; tauto).
  - cbn [map fst snd]. rewrite join_one. rewrite !append_assoc, compact_member_text.
    apply (parse_members_last f k _ "").
    + apply IH; [lia|exact Hx|exact Hwx|apply delimited_brace].
    + reflexivity.
  - cbn [map fst snd]. rewrite join_more. rewrite !append_assoc, compact_member_text.
    erewrite (parse_members_more f k _ _ x).
    2:{ apply IH; auto using delimited_comma. lia. }
    pose proof (IHl y f rest) as IHy.
    cbn [map] in IHy. rewrite IHy; [reflexivity| lia | | ].
    + unfold size_members in *. simpl in *. lia.
    + simpl in Hwf. apply andb_true_iff in Hwf. tauto.
Qed.

End CompactLoops.

Lemma compact_elements_head (tail : string) (x : JValue) (l : list JValue) :
  exists c r,
    join "," (map stringify (x :: l)) +:+ tail = String c r /\ opening c = true.
Proof.
  destruct l as [|y l]; cbn [map].
  - rewrite join_one. apply stringify_head.
  - rewrite join_more, append_assoc. apply stringify_head.
Qed.

Lemma compact_members_head (tail : string) (kv : string * JValue)
    (l : list (string * JValue)) :
  exists c r,
    join "," (map (fun kv => quote (fst kv) +:+ ":" +:+ stringify (snd kv)) (kv :: l))
    +:+ tail = String c r /\ opening c = true.
Proof.
  destruct l as [|y l]; cbn [map].
  - rewrite join_one, !append_assoc, quote_append. eexists _, _. split; reflexivity.
  - rewrite join_more, !append_assoc, quote_append. eexists _, _. split; reflexivity.
Qed.

Lemma stringify_array (elems : list JValue) (rest : string) :
  stringify (JArr elems) +:+ rest
  = String "[" (join "," (map stringify elems) +:+ String "]" rest).
Proof. cbn [stringify]. rewrite !append_assoc. reflexivity. Qed.

Lemma stringify_object (fields : list (string * JValue)) (rest : string) :
  stringify (JObj fields) +:+ rest
  = String "{" (join "," (map (fun kv => quote (fst kv) +:+ ":" +:+ stringify (snd kv))
                              fields) +:+ String "}" rest).
Proof. cbn [stringify]. rewrite !append_assoc. reflexivity. Qed.

Lemma compact_value (fuel : nat) :
  forall v rest,
    JValue_size v <= fuel -> distinct_keys v = true -> delimited rest ->
    parse_value fuel (stringify v +:+ rest) = Some (v, rest).
Proof.
  induction fuel as [fuel IH] using lt_wf_ind.
  intros v rest Hsize Hwf Hrest.
  destruct fuel as [|f]; [destruct v; simpl in Hsize; lia|].
  destruct v as [|b|n|s|elems|fields].
  - reflexivity.
  - destruct b; reflexivity.
  - apply parse_value_number, Hrest.
  - apply parse_value_string.
  - rewrite stringify_array. destruct elems as [|x l]; [reflexivity|].
    destruct (compact_elements_head (String "]" rest) x l) as (c & r & Hhead & Hc).
    eapply parse_value_array.
    + rewrite Hhead. apply skip_ws_opening, Hc.
    + exact Hc.
    + apply (compact_elements (S f) IH); auto.
      simpl in Hsize. unfold size_list. simpl. lia.
  - rewrite stringify_object. destruct fields as [|kv l]; [reflexivity|].
    destruct (compact_members_head (String "}" rest) kv l) as (c & r & Hhead & Hc).
    simpl in Hwf. apply andb_true_iff in Hwf as [Hkeys Hwf].
    apply bool_decide_eq_true in Hkeys.
    rewrite <- (object_of_members_distinct (kv :: l) Hkeys) at 2.
    eapply parse_value_object.
    + rewrite Hhead. apply skip_ws_opening, Hc.
    + exact Hc.
    + apply (compact_members (S f) IH); auto.
      simpl in Hsize. unfold size_members. simpl. lia.
Qed.

Lemma size_le_length_compact (n : nat) :
  forall v, JValue_size v <= n -> JValue_size v <= String.length (stringify v).
Proof.
  induction n as [|n IHn]; intros v Hn; [destruct v; simpl in Hn; lia|].
  destruct v as [|b|m|s|elems|fields].
  - simpl. lia.
  - destruct b; simpl; lia.
  - destruct (pretty_head m "") as (c & r & Hhead & _).
    rewrite append_empty in Hhead.
    change (stringify (JNum m)) with (pretty m). rewrite Hhead. simpl. lia.
  - simpl. lia.
  - destruct elems as [|x l]; [simpl; lia|].
    cbn [stringify JValue_size]. rewrite !length_append.
    pose proof (join_size JValue_size stringify "," l x) as Hj.
    cbn [JValue_size] in Hn.
    assert (Hall : forall y, In y (x :: l) -> JValue_size y <= String.length (stringify y)).
    { intros y Hy. apply IHn.
      assert (S (JValue_size y) <= list_sum (map (fun x => S (JValue_size x)) (x :: l))).
      { clear -Hy. induction (x :: l) as [|z zs IHz]; [destruct Hy|].
        simpl. destruct Hy as [->|Hy]; [lia|]. specialize (IHz Hy). lia. }
      lia. }
    specialize (Hj Hall ltac:(simpl; lia)).
    change (String.length "[") with 1. change (String.length "]") with 1.
    cbn [list_sum fold_right] in *. lia.
  - destruct fields as [|kv l]; [simpl; lia|].
    cbn [stringify JValue_size]. rewrite !length_append.
    pose proof (join_size (fun kv => JValue_size (snd kv))
                  (fun kv => quote (fst kv) +:+ ":" +:+ stringify (snd kv)) "," l kv) as Hj.
    cbn [JValue_size] in Hn.
    assert (Hall : forall y, In y (kv :: l) ->
                    JValue_size (snd y)
                    <= String.length (quote (fst y) +:+ ":" +:+ stringify (snd y))).
    { intros y Hy. rewrite !length_append.
      assert (JValue_size (snd y) <= String.length (stringify (snd y))).
      { apply IHn.
        assert (S (JValue_size (snd y))
                <= list_sum (map (fun kv => S (JValue_size (snd kv))) (kv :: l))).
        { clear -Hy. induction (kv :: l) as [|z zs IHz]; [destruct Hy|].
          simpl. destruct Hy as [->|Hy]; [lia|]. specialize (IHz Hy). lia. }
        lia. }
      lia. }
    specialize (Hj Hall ltac:(simpl; lia)).
    change (String.length "{") with 1. change (String.length "}") with 1.
    cbn [list_sum fold_right] in *. lia.
Qed.

(** The reference parser reads back the compact serialization too. *)
Lemma parse_stringify (v : JValue) :
  distinct_keys v = true -> parse (stringify v) = Ok v.
Proof.
  intros Hwf. unfold parse.
  rewrite <- (append_empty (stringify v)) at 2.
  rewrite compact_value; [reflexivity| |exact Hwf|exact I].
  pose proof (size_le_length_compact (JValue_size v) v (Nat.le_refl _)). lia.
Qed.

Lemma stringify_array_not_empty (elems : list JValue) :
  stringify (JArr elems) <> "".
Proof. cbn [stringify]. discriminate. Qed.

End CompactCodec.

(** ** On the reference codec *)

Section Reference.
Import RefJSON Examples.

(** X20: a History of cards of the declared type [CorpusCard] whose terms
    and meanings are not empty comes back from its own backup: the file
    that export downloads, imported into an empty History, gives the same
    cards in the same order, whatever their ids and times. *)
Theorem typed_history_backup_restores
    (rows : list (CorpusEntry * string * Z)) (isoNow : string) (s : Session) :
  Forall (fun r => term r.1.1 <> "" /\ meaning r.1.1 <> "") rows ->
  cards (app s) = [] ->
  exists name file s',
    handleExport (map (fun r => card_value r.1.1 r.1.2 r.2) rows) isoNow
    = [download name file] /\
    step s (ImportFile (Some file)) = Ok s' /\
    cards (app s') = map (fun r => card_value r.1.1 r.1.2 r.2) rows.
Proof.
  intros Hrows Hempty. apply export_import_on_codec; [| |exact Hempty].
  - apply Forall_map. eapply Forall_impl; [exact Hrows|].
    intros [[e id] t] [Hterm Hmeaning]. cbn [fst snd] in *.
    change (field (card_value e id t) "term") with (Some (JStr (term e))).
    change (field (card_value e id t) "meaning") with (Some (JStr (meaning e))).
    cbn [ToBoolean]. apply String.eqb_neq in Hterm, Hmeaning.
    rewrite Hterm, Hmeaning. reflexivity.
  - apply (parse_stringify_indent (JArr _)). cbn [distinct_keys].
    apply forallb_forall. intros c Hc. apply in_map_iff in Hc as ([[e id] t] & <- & _).
    apply distinct_keys_card_value.
Qed.

(** X21: on the reference codec, a session whose History is saved can be
    closed and opened again: mounting on its storage gives the same
    History, in the same order, and leaves the storage as it was. *)
Theorem reload_restores_history (s : Session) (env_API_KEY : option string) :
  persisted s ->
  forallb distinct_keys (cards (app s)) = true ->
  exists s',
    mount (localStorage (env s)) env_API_KEY = Ok s' /\
    cards (app s') = cards (app s) /\
    localStorage (env s') = localStorage (env s) /\
    console (env s') = [].
Proof.
  intros Hsaved Hkeys. unfold persisted in Hsaved.
  assert (Hparse : JSON_parse (JSON_stringify (JArr (cards (app s))))
                   = Ok (JArr (cards (app s)))).
  { apply (parse_stringify (JArr _)). exact Hkeys. }
  destruct (stringify_head (JArr (cards (app s))) "") as (c & r & Hhead & _).
  rewrite append_empty in Hhead.
  change (stringify (JArr (cards (app s))))
    with (JSON_stringify (JArr (cards (app s)))) in Hhead.
  unfold mount, rendered, returned, useEffect_load. rewrite Hsaved.
  remember (JSON_stringify (JArr (cards (app s)))) as saved eqn:Esaved.
  rewrite Hhead in Hparse |- *. rewrite Hparse.
  cbn -[JSON_stringify]. eexists. split; [reflexivity|]. cbn -[JSON_stringify].
  split; [reflexivity|]. split; [|reflexivity].
  rewrite insert_insert_eq. apply insert_id.
  rewrite Hsaved. congruence.
Qed.

End Reference.

(** ** Concrete runs of the properties above *)

Section Instances.
Import RefJSON Examples.

Lemma analyze_success_prepends_and_saves_witness :
  let s := session_of [card_bribe] "key" in
  apiKey (app s) <> "" /\
  exists s',
    step s (Analyze "情報" (Resolved (entry_fields information)) "id-2" 1700000000500)
    = Ok s' /\
    cards (app s') = [card_information; card_bribe] /\
    requests (env s') = [("情報", "key")] /\
    persisted s'.
Proof.
  intros s. assert (Hkey : apiKey (app s) <> "") by discriminate.
  split; [exact Hkey|].
  destruct (analyze_success_prepends_and_saves s "情報" (entry_fields information)
              "id-2" 1700000000500 Hkey)
    as (s' & Hstep & Hcards & Hreq & _ & _ & _ & _ & _ & Hsaved).
  exists s'. split; [exact Hstep|]. split; [exact Hcards|]. split; [exact Hreq|exact Hsaved].
Defined.


Lemma delete_twice_same_as_once_witness :
  let s := session_of [record (JStr "a"); record (JStr "b")] "" in
  Forall (fun c => c <> JNull) (cards (app s)) /\
  exists s1 s2,
    step s (Delete "a" true) = Ok s1 /\
    step s1 (Delete "a" true) = Ok s2 /\
    cards (app s2) = cards (app s1).
Proof.
  intros s.
  assert (Hnn : Forall (fun c => c <> JNull) (cards (app s)))
    by (repeat constructor; discriminate).
  split; [exact Hnn|].
  destruct (delete_twice_same_as_once s "a" Hnn)
    as [(s1 & s2 & Hfirst & Hsecond & Hsame & _) _].
  exists s1, s2. split; [exact Hfirst|]. split; [exact Hsecond|exact Hsame].
Defined.

Lemma delete_undoes_analyze_witness :
  let s := session_of [card_bribe] "key" in
  apiKey (app s) <> "" /\
  Forall (fun c => c <> JNull) (cards (app s)) /\
  (Some (JStr "id-2") ∉ ids (cards (app s))) /\
  exists s1 s2,
    step s (Analyze "情報" (Resolved (entry_fields information)) "id-2" 5) = Ok s1 /\
    step s1 (Delete "id-2" true) = Ok s2 /\
    cards (app s2) = [card_bribe].
Proof.
  intros s. assert (Hkey : apiKey (app s) <> "") by discriminate.
  assert (Hnn : Forall (fun c => c <> JNull) (cards (app s)))
    by (repeat constructor; discriminate).
  assert (Hfresh : Some (JStr "id-2") ∉ ids (cards (app s))).
  { intros Hin. apply list_elem_of_In in Hin. vm_compute in Hin.
    destruct Hin as [Hin|[]]. discriminate. }
  split; [exact Hkey|]. split; [exact Hnn|]. split; [exact Hfresh|].
  exact (delete_undoes_analyze s "情報" (entry_fields information) "id-2" 5
           Hkey Hnn Hfresh).
Defined.

Lemma export_downloads_dated_backup_witness :
  let s := session_of [card_bribe] "key" in
  String.length "2026-11-03" = 10 /\
  exists s',
    step s (Export "2026-11-03T09:00:00.000Z") = Ok s' /\
    app s' = app s /\
    downloads (env s')
    = [("linguist_corpus_backup_2026-11-03.json", stringify_indent "" (JArr [card_bribe]))].
Proof.
  intros s. split; [reflexivity|].
  destruct (export_downloads_dated_backup s "2026-11-03" "T09:00:00.000Z" eq_refl)
    as (s' & Hstep & Happ & _ & _ & _ & Hfile).
  exists s'. split; [exact Hstep|]. split; [exact Happ|exact Hfile].
Defined.

Lemma import_checks_ids_seen_at_selection_witness :
  let seen := [record (JStr "a")] in
  let s := session_of [record (JStr "c")] "" in
  let C := [record (JStr "a"); record (JStr "b")] in
  JSON_parse (stringify (JArr C)) = Ok (JArr C) /\
  Forall (fun c => c <> JNull) seen /\
  Forall (fun c => c <> JNull) C /\
  exists s',
    run (handleImportFile seen (Some (stringify (JArr C)))) s = Ok s' /\
    cards (app s') = [record (JStr "b"); record (JStr "c")].
Proof.
  intros seen s C.
  assert (Hparse : JSON_parse (stringify (JArr C)) = Ok (JArr C))
    by (vm_compute; reflexivity).
  assert (Hseen : Forall (fun c => c <> JNull) seen) by (repeat constructor; discriminate).
  assert (HC : Forall (fun c => c <> JNull) C) by (repeat constructor; discriminate).
  split; [exact Hparse|]. split; [exact Hseen|]. split; [exact HC|].
  exact (import_checks_ids_seen_at_selection seen s (stringify (JArr C)) C
           Hparse Hseen HC).
Defined.

Lemma import_aborts_on_null_witness :
  let s := session_of [card_bribe] "" in
  let C := [record (JStr "a"); JNull] in
  JSON_parse file_with_null = Ok (JArr C) /\
  In JNull C /\
  exists s',
    step s (ImportFile (Some file_with_null)) = Ok s' /\
    app s' = app s /\
    alerts (env s') = [Msg.import_failed].
Proof.
  intros s C.
  assert (Hparse : JSON_parse file_with_null = Ok (JArr C)) by (vm_compute; reflexivity).
  assert (Hnull : In JNull C) by (right; left; reflexivity).
  split; [exact Hparse|]. split; [exact Hnull|].
  destruct (import_aborts_on_null s file_with_null C Hparse Hnull)
    as (s' & Hstep & Happ & _ & Halert).
  exists s'. split; [exact Hstep|]. split; [exact Happ|exact Halert].
Defined.


Lemma mount_resets_unusable_history_witness :
  let storage : gmap string string := <[STORAGE_KEY := "{not json"]> ∅ in
  (exists saved e, storage !! STORAGE_KEY = Some saved /\ JSON_parse saved = Throw e) /\
  exists s,
    mount storage None = Ok s /\
    cards (app s) = [] /\
    localStorage (env s) !! STORAGE_KEY = Some "[]".
Proof.
  intros storage.
  assert (Hbad : exists saved e,
             storage !! STORAGE_KEY = Some saved /\ JSON_parse saved = Throw e).
  { exists "{not json", SyntaxError. split; vm_compute; reflexivity. }
  split; [exact Hbad|].
  destruct (mount_resets_unusable_history storage None (or_intror (or_intror Hbad)))
    as (s & Hmount & Hcards & Hstore).
  exists s. split; [exact Hmount|]. split; [exact Hcards|].
  rewrite Hstore. apply lookup_insert_eq.
Defined.

Lemma history_saved_along_session_witness :
  let evs := [SaveApiKey "key";
              Analyze "情報" (Resolved (entry_fields information)) "id-2" 5;
              ImportFile (Some file_backup);
              Delete "id-2" true] in
  mount ∅ None = Ok empty_session /\
  exists s, steps empty_session evs = Ok s /\ persisted s.
Proof.
  intros evs.
  assert (Hmount : mount ∅ None = Ok empty_session) by (vm_compute; reflexivity).
  split; [exact Hmount|].
  destruct (steps empty_session evs) as [s|e] eqn:Hsteps;
    [|vm_compute in Hsteps; discriminate].
  exists s. split; [reflexivity|].
  exact (history_saved_along_session ∅ None evs empty_session s Hmount Hsteps).
Defined.


Lemma credential_changed_by_settings_only_witness :
  let s := session_of [card_bribe] "key" in
  let s' := session_of [] "key" in
  step s (Delete "id-1" true) = Ok s' /\
  (forall key, Delete "id-1" true <> SaveApiKey key) /\
  apiKey (app s') = apiKey (app s) /\
  localStorage (env s') !! API_KEY_STORAGE_KEY = localStorage (env s) !! API_KEY_STORAGE_KEY.
Proof.
  intros s s'.
  assert (Hstep : step s (Delete "id-1" true) = Ok s') by (vm_compute; reflexivity).
  assert (Hev : forall key, Delete "id-1" true <> SaveApiKey key) by discriminate.
  split; [exact Hstep|]. split; [exact Hev|].
  exact (credential_changed_by_settings_only s s' (Delete "id-1" true) Hstep Hev).
Defined.

Lemma one_request_per_analyze_witness :
  let s := session_of [card_bribe] "key" in
  let ev := Analyze "情報" (Rejected None) "id-2" 5 in
  exists s', step s ev = Ok s' /\ requests (env s') = [("情報", "key")].
Proof.
  intros s ev.
  destruct (step s ev) as [s'|e] eqn:Hstep; [|vm_compute in Hstep; discriminate].
  exists s'. split; [reflexivity|].
  exact (one_request_per_analyze s s' ev Hstep).
Defined.

Lemma settled_card_goes_on_latest_history_witness :
  let s := session_of [card_bribe] "key" in
  apiKey (app s) <> "" /\
  exists s1,
    run (handleAnalyze_start "key" "情報") s = Ok s1 /\
    loading (app s1) = true /\
    forall evs s2,
      steps s1 evs = Ok s2 ->
      exists s3,
        run (handleAnalyze_settle (Resolved (entry_fields information)) "id-2" 5) s2
        = Ok s3 /\
        cards (app s3) = newCard (entry_fields information) "id-2" 5 :: cards (app s2).
Proof.
  intros s. assert (Hkey : apiKey (app s) <> "") by discriminate.
  split; [exact Hkey|].
  destruct (settled_card_goes_on_latest_history s "情報" Hkey)
    as (s1 & Hstart & Hloading & _ & _ & _ & _ & Hlater & _).
  exists s1. split; [exact Hstart|]. split; [exact Hloading|].
  intros evs s2 Hsteps.
  destruct (Hlater evs s2 (entry_fields information) "id-2" 5%Z Hsteps)
    as (s3 & Hsettle & Hcards & _).
  exists s3. split; [exact Hsettle|exact Hcards].
Defined.

Lemma analyses_stack_newest_first_witness :
  let s := session_of [] "key" in
  apiKey (app s) <> "" /\
  exists s',
    steps s [Analyze "賄賂" (Resolved (entry_fields bribe)) "id-1" 1700000000000;
             Analyze "情報" (Resolved (entry_fields information)) "id-2" 1700000000500]
    = Ok s' /\
    cards (app s') = [card_information; card_bribe].
Proof.
  intros s. assert (Hkey : apiKey (app s) <> "") by discriminate.
  split; [exact Hkey|].
  exact (analyses_stack_newest_first s
           [("賄賂", entry_fields bribe, "id-1", 1700000000000%Z);
            ("情報", entry_fields information, "id-2", 1700000000500%Z)] Hkey).
Defined.

Lemma typed_history_backup_restores_witness :
  let rows := [(information, "id-2", 1700000000500%Z); (bribe, "id-1", 1700000000000%Z)] in
  Forall (fun r : CorpusEntry * string * Z => term r.1.1 <> "" /\ meaning r.1.1 <> "") rows /\
  cards (app empty_session) = [] /\
  exists name file s',
    handleExport [card_information; card_bribe] "2026-11-03T09:00:00.000Z"
    = [download name file] /\
    step empty_session (ImportFile (Some file)) = Ok s' /\
    cards (app s') = [card_information; card_bribe].
Proof.
  intros rows.
  assert (Hrows : Forall (fun r : CorpusEntry * string * Z =>
                            term r.1.1 <> "" /\ meaning r.1.1 <> "") rows).
  { repeat constructor; intros Hx; vm_compute in Hx; discriminate. }
  split; [exact Hrows|]. split; [reflexivity|].
  exact (typed_history_backup_restores rows "2026-11-03T09:00:00.000Z" empty_session
           Hrows eq_refl).
Defined.

Lemma reload_restores_history_witness :
  let s := session_of [card_information; card_bribe] "key" in
  persisted s /\
  forallb distinct_keys (cards (app s)) = true /\
  exists s',
    mount (localStorage (env s)) None = Ok s' /\
    cards (app s') = [card_information; card_bribe].
Proof.
  intros s.
  assert (Hsaved : persisted s) by apply lookup_insert_eq.
  assert (Hkeys : forallb distinct_keys (cards (app s)) = true) by (vm_compute; reflexivity).
  split; [exact Hsaved|]. split; [exact Hkeys|].
  destruct (reload_restores_history s None Hsaved Hkeys) as (s' & Hmount & Hcards & _).
  exists s'. split; [exact Hmount|exact Hcards].
Defined.

Lemma unique_ids_preserved_witness :
  let s := session_of [card_bribe] "key" in
  let ev := Analyze "情報" (Resolved (entry_fields information)) "id-2" 5 in
  NoDup (ids (cards (app s))) /\
  (Some (JStr "id-2") ∉ ids (cards (app s))) /\
  exists s', step s ev = Ok s' /\ NoDup (ids (cards (app s'))).
Proof.
  intros s ev.
  assert (Hnd : NoDup (ids (cards (app s)))) by apply NoDup_singleton.
  assert (Hfresh : Some (JStr "id-2") ∉ ids (cards (app s))).
  { intros Hin. apply list_elem_of_In in Hin. vm_compute in Hin.
    destruct Hin as [Hin|[]]. discriminate. }
  split; [exact Hnd|]. split; [exact Hfresh|].
  destruct (step s ev) as [s'|e] eqn:Hstep; [|vm_compute in Hstep; discriminate].
  exists s'. split; [reflexivity|].
  exact (unique_ids_preserved s s' ev Hstep Hnd Hfresh).
Defined.

End Instances.
